(** * itsalive: the hysteresis evaluator, the watcher loop and the
      configuration validator of [itsalive.go], embedded and verified. *)

From Stdlib Require Import String Ascii DecimalString.
From Stdlib Require Import ZArith QArith List Bool Lia.
Import ListNotations.
Open Scope Z_scope.

(** ** Go's [int]: 64-bit two's complement, wrap-around written out *)

Definition min_int : Z := - 2 ^ 63.
Definition max_int : Z := 2 ^ 63 - 1.

Definition is_int (z : Z) : Prop := min_int <= z <= max_int.

Definition wrap (z : Z) : Z := (z + 2 ^ 63) mod 2 ^ 64 - 2 ^ 63.

Definition int_sub (x y : Z) : Z := wrap (x - y).
Definition int_add (x y : Z) : Z := wrap (x + y).

(** ** Results of a Go computation: a value, a run-time panic, or the
       loop budget of the embedding used up (shown unreachable below). *)

Inductive outcome (A : Type) : Type :=
| Ret (a : A)
| Panic
| OutOfFuel.

Arguments Ret {A} a.
Arguments Panic {A}.
Arguments OutOfFuel {A}.

Definition bind {A B : Type} (c : outcome A) (k : A -> outcome B) : outcome B :=
  match c with
  | Ret a => k a
  | Panic => Panic
  | OutOfFuel => OutOfFuel
  end.

Notation "x <- c ;; k" := (bind c (fun x => k))
  (at level 61, c at next level, right associativity).

(** ** [checkStatus] and its three constants (iota 0, 1, 2) *)

Inductive checkStatus : Type :=
| checkStatusUnknown
| checkStatusOk
| checkStatusAlarm.

Definition checkStatus_code (s : checkStatus) : Z :=
  match s with
  | checkStatusUnknown => 0
  | checkStatusOk => 1
  | checkStatusAlarm => 2
  end.

Definition checkStatus_eqb (a b : checkStatus) : bool :=
  checkStatus_code a =? checkStatus_code b.

(** The zero value of [checkStatus], which [make] fills a slice with. *)
Definition checkStatus_zero : checkStatus := checkStatusUnknown.

(** ** Slices of [checkStatus] *)

Definition len {A : Type} (s : list A) : Z := Z.of_nat (length s).

(** [s[i]]: panics outside [0, len s). *)
Definition index {A : Type} (s : list A) (i : Z) : outcome A :=
  if (i <? 0) || (len s <=? i) then Panic
  else match nth_error s (Z.to_nat i) with
       | Some a => Ret a
       | None => Panic
       end.

Definition max (x y : Z) : Z := if x >? y then x else y.

Definition intInSlice (a : Z) (slice : list Z) : bool :=
  existsb (fun b => a =? b) slice.

(** ** [getNewStatus] *)

(** The loop [for idx := size - 2; idx >= lo; idx-- { if history[idx] != want
    { flag = false; break } }], started with [flag = true]; the result is
    the flag when the loop is left. *)
Fixpoint scanBack (fuel : nat) (history : list checkStatus)
         (want : checkStatus) (lo idx : Z) : outcome bool :=
  match fuel with
  | O => OutOfFuel
  | S fuel' =>
      if idx >=? lo then
        s <- index history idx ;;
        if negb (checkStatus_eqb s want) then Ret false
        else scanBack fuel' history want lo (int_sub idx 1)
      else Ret true
  end.

(** One of the two [if history[size-1] == want { ... }] blocks: [Ret true]
    when the block reaches its [return want]. *)
Definition confirms (history : list checkStatus) (want : checkStatus)
           (periods : Z) : outcome bool :=
  let size := len history in
  newest <- index history (int_sub size 1) ;;
  if checkStatus_eqb newest want then
    scanBack (length history) history want
             (int_sub size periods) (int_sub size 2)
  else Ret false.

Definition getNewStatus (history : list checkStatus)
           (okPeriods alarmPeriods : Z) : outcome checkStatus :=
  ok <- confirms history checkStatusOk okPeriods ;;
  if ok then Ret checkStatusOk
  else
    alarm <- confirms history checkStatusAlarm alarmPeriods ;;
    if alarm then Ret checkStatusAlarm
    else Ret checkStatusUnknown.

(** ** Vocabulary of the specification about windows *)

(** The last [n] entries of a buffer. *)
Definition lastn {A : Type} (n : Z) (s : list A) : list A :=
  skipn (length s - Z.to_nat n) s.

Definition all_are (want : checkStatus) (l : list checkStatus) : bool :=
  forallb (fun s => checkStatus_eqb s want) l.

(** The rule of the evaluator in the words of the specification. *)
Definition rule (history : list checkStatus) (okPeriods alarmPeriods : Z)
  : checkStatus :=
  if all_are checkStatusOk (lastn okPeriods history) then checkStatusOk
  else if all_are checkStatusAlarm (lastn alarmPeriods history)
       then checkStatusAlarm
       else checkStatusUnknown.

(** A list "contains an entry differing from the others". *)
Definition differing (l : list checkStatus) : Prop :=
  exists a b, In a l /\ In b l /\ a <> b.

(** ** Strings, errors, durations *)

(** A Go string is a sequence of bytes. *)
Definition bytes_of (s : string) : list Z :=
  map (fun c => Z.of_N (N_of_ascii c)) (list_ascii_of_string s).

(** [unicode/utf8]: the table [first] on bytes from 0x80 up, as the size of
    the sequence the byte opens and the range accepted for its second byte;
    [None] is the entry [xx] of an invalid leading byte. *)
Definition first (c : Z) : option (Z * (Z * Z)) :=
  if c <? 0xC2 then None
  else if c <? 0xE0 then Some (2, (0x80, 0xBF))
  else if c =? 0xE0 then Some (3, (0xA0, 0xBF))
  else if c =? 0xED then Some (3, (0x80, 0x9F))
  else if c <? 0xF0 then Some (3, (0x80, 0xBF))
  else if c =? 0xF0 then Some (4, (0x90, 0xBF))
  else if c <? 0xF4 then Some (4, (0x80, 0xBF))
  else if c =? 0xF4 then Some (4, (0x80, 0x8F))
  else None.

Definition locb : Z := 0x80.
Definition hicb : Z := 0xBF.

Definition outside (lo hi c : Z) : bool := (c <? lo) || (hi <? c).

(** The number of bytes one pass of the loop of [RuneCountInString] moves
    over at the head of a non-empty [s]: 1 for ASCII, for an invalid or
    short sequence, else the size of the sequence. *)
Definition runeWidth (s : list Z) : nat :=
  match s with
  | [] => 0%nat
  | c :: rest =>
      if c <? 0x80 then 1%nat
      else
        match first c with
        | None => 1%nat
        | Some (size, (lo, hi)) =>
            if len s <? size then 1%nat
            else
              match rest with
              | [] => 1%nat
              | c1 :: rest1 =>
                  if outside lo hi c1 then 1%nat
                  else if size =? 2 then 2%nat
                  else
                    match rest1 with
                    | [] => 1%nat
                    | c2 :: rest2 =>
                        if outside locb hicb c2 then 1%nat
                        else if size =? 3 then 3%nat
                        else
                          match rest2 with
                          | [] => 1%nat
                          | c3 :: _ =>
                              if outside locb hicb c3 then 1%nat else 4%nat
                          end
                    end
              end
        end
  end.

Fixpoint runeCount (fuel : nat) (s : list Z) : Z :=
  match fuel with
  | O => 0
  | S fuel' =>
      match s with
      | [] => 0
      | _ :: _ => 1 + runeCount fuel' (skipn (runeWidth s) s)
      end
  end.

(** [utf8.RuneCountInString]; every pass moves over at least one byte, so
    the length of the string bounds the number of passes. *)
Definition RuneCountInString (s : string) : Z :=
  runeCount (length (bytes_of s)) (bytes_of s).

(** A Go [error]: [None] is [nil], [Some msg] an error whose [Error()] is
    [msg]. *)
Definition error : Type := option string.

Definition errors_New (msg : string) : error := Some msg.

(** The verb [%d] on an [int]. *)
Definition format_d (z : Z) : string := NilZero.string_of_int (Z.to_int z).

(** [time.Duration]: a count of nanoseconds in an int64. *)
Record duration : Type := { Duration : Z }.

Definition Second : Z := 1000000000.

(** [Duration.Seconds()]: [float64(d / Second) + float64(d % Second) / 1e9],
    taken here in exact rationals.  Both summands have the sign of [d], the
    first is an integer below 2^53 and the second is the rounding of a
    quotient of magnitude at least 1e-9 when it is not zero, so the float
    is zero exactly when this rational is. *)
Definition Seconds (d : duration) : Q :=
  (inject_Z (Z.quot (Duration d) Second)
   + inject_Z (Z.rem (Duration d) Second) / inject_Z Second)%Q.

(** ** The configuration and the event *)

Record urlConfig : Type := {
  Name : string;
  URL : string;
  OKStatuses : list Z;
  CheckInterval : duration;
  OKPeriods : Z;
  AlarmPeriods : Z;
  HTTPTimeout : duration
}.

Record aliveConfig : Type := {
  Items : list urlConfig;
  SlackToken : string;
  SlackChannel : string;
  BotName : string
}.

Record statusChange : Type := {
  name : string;
  url : string;
  time : Z;
  from : checkStatus;
  to : checkStatus
}.

(** ** [checkResponse] *)

(** The part of [http.Response] the program reads. *)
Record Response : Type := { StatusCode : Z }.

(** [resp] is a pointer: [None] is [nil], and [resp.Body] on it panics. *)
Definition checkResponse (resp : option Response) (err : error)
           (config : urlConfig) : outcome bool :=
  match err with
  | Some _ => Ret false
  | None =>
      match resp with
      | None => Panic
      | Some r => Ret (intInSlice (StatusCode r) (OKStatuses config))
      end
  end.

(** ** [watchURL] *)

(** [make([]checkStatus, n)]: the runtime panics (makeslice: len out of
    range) on a negative length and on a length above what it can allocate.
    That bound depends on the platform ([maxAlloc] over the size of an
    element, 2^45 for 8-byte elements on linux/amd64) and is taken as the
    parameter [maxLen]; the slice is filled with the zero value. *)
Definition make (maxLen : Z) (n : Z) : outcome (list checkStatus) :=
  if (n <? 0) || (maxLen <? n) then Panic
  else Ret (repeat checkStatus_zero (Z.to_nat n)).

(** [s[lo:]] *)
Definition slice_from {A : Type} (s : list A) (lo : Z) : outcome (list A) :=
  if (lo <? 0) || (len s <? lo) then Panic
  else Ret (skipn (Z.to_nat lo) s).

(** What one pass of the loop takes from outside: the result of
    [client.Get] and the clock read by [time.Now]. *)
Record poll : Type := {
  resp : option Response;
  err : error;
  now : Z
}.

(** The variables of [watchURL], and the events sent on the channel so far,
    oldest first. *)
Record watcher : Type := {
  lastStatus : checkStatus;
  history : list checkStatus;
  events : list statusChange
}.

(** [currentStatus], set from [result] by the [if]/[else] at the head of the
    loop body. *)
Definition currentStatus (result : bool) : checkStatus :=
  if result then checkStatusOk else checkStatusAlarm.

(** The contract of [client.Get]: without an error there is a response. *)
Definition well_formed (p : poll) : Prop := err p = None -> resp p <> None.

(** The body of the [for] loop.  [append] to [history[1:]] gives back a
    slice of the old length; the array it moves the slice to when the
    capacity is used up is of the order of the buffer that [make] was
    granted, and that request is taken as granted too. *)
Definition iteration (config : urlConfig) (w : watcher) (p : poll)
  : outcome watcher :=
  result <- checkResponse (resp p) (err p) config ;;
  rest <- slice_from (history w) 1 ;;
  let history' := rest ++ [currentStatus result] in
  newStatus <- getNewStatus history' (OKPeriods config) (AlarmPeriods config) ;;
  if negb (checkStatus_eqb newStatus checkStatusUnknown)
     && negb (checkStatus_eqb newStatus (lastStatus w))
  then
    Ret {| lastStatus := newStatus;
           history := history';
           events := events w ++ [ {| name := Name config;
                                      url := URL config;
                                      time := now p;
                                      from := lastStatus w;
                                      to := newStatus |} ] |}
  else
    Ret {| lastStatus := lastStatus w;
           history := history';
           events := events w |}.

Fixpoint iterate (config : urlConfig) (w : watcher) (polls : list poll)
  : outcome watcher :=
  match polls with
  | [] => Ret w
  | p :: polls' => w' <- iteration config w p ;; iterate config w' polls'
  end.

Definition start (maxLen : Z) (config : urlConfig) : outcome watcher :=
  h <- make maxLen (max (OKPeriods config) (AlarmPeriods config)) ;;
  Ret {| lastStatus := checkStatusUnknown; history := h; events := [] |}.

(** [watchURL] up to the end of the pass that consumes the last of
    [polls]; the loop itself never ends.  [maxLen] is the bound of the
    runtime on the length of the buffer. *)
Definition watchURL (maxLen : Z) (config : urlConfig) (polls : list poll)
  : outcome watcher :=
  w <- start maxLen config ;; iterate config w polls.

(** ** The validator *)

Definition validateURLConfig (config : urlConfig) : error :=
  if RuneCountInString (URL config) =? 0 then errors_New "empty URL"
  else if len (OKStatuses config) =? 0 then errors_New "empty OKStatuses"
  else if Qeq_bool (Seconds (CheckInterval config)) 0
       then errors_New "CheckInterval == 0s"
  else if Qeq_bool (Seconds (HTTPTimeout config)) 0
       then errors_New "HTTPTimeout == 0s"
  else if AlarmPeriods config =? 0 then errors_New "AlarmPeriods == 0"
  else if OKPeriods config =? 0 then errors_New "OKPeriods == 0"
  else None.

(** [for idx, conf := range items], entered with the index of the head. *)
Fixpoint validateItems (idx : Z) (items : list urlConfig) : error :=
  match items with
  | [] => None
  | conf :: items' =>
      match validateURLConfig conf with
      | Some msg =>
          Some ("invalid item " ++ format_d idx ++ ": " ++ msg)%string
      | None => validateItems (int_add idx 1) items'
      end
  end.

Definition validateConfig (config : aliveConfig) : error :=
  if RuneCountInString (SlackToken config) =? 0
  then errors_New "empty SlackToken"
  else if RuneCountInString (SlackChannel config) =? 0
  then errors_New "empty SlackChannel"
  else if RuneCountInString (BotName config) =? 0
  then errors_New "empty BotName"
  else if len (Items config) =? 0 then errors_New "no items"
  else validateItems 0 (Items config).

(** ** Vocabulary of the specification about the watcher *)

(** The thresholds are Go [int]s, both at least 1. *)
Definition valid_periods (config : urlConfig) : Prop :=
  is_int (OKPeriods config) /\ is_int (AlarmPeriods config)
  /\ 1 <= OKPeriods config /\ 1 <= AlarmPeriods config.

(** The window length L = max(N_ok, N_alarm). *)
Definition capacity (config : urlConfig) : Z :=
  max (OKPeriods config) (AlarmPeriods config).

(** StatusChangeEvent(name, url, now, last, result). *)
Definition StatusChangeEvent (config : urlConfig) (p : poll)
           (last result : checkStatus) : statusChange :=
  {| name := Name config; url := URL config; time := now p;
     from := last; to := result |}.

(** The evaluator's result in the pass that left the watcher in state [w]:
    the pass stores the buffer it evaluated. *)
Definition verdict (config : urlConfig) (w : watcher) : outcome checkStatus :=
  getNewStatus (history w) (OKPeriods config) (AlarmPeriods config).



(** Every entry at the positions [lo .. hi] is [want]. *)
Definition window_is (want : checkStatus) (h : list checkStatus) (lo hi : Z)
  : Prop :=
  forall i, lo <= i <= hi -> nth_error h (Z.to_nat i) = Some want.

(** The fields [validateURLConfig] tests, each against its zero value. *)
Definition no_zero_field (config : urlConfig) : Prop :=
  URL config <> EmptyString
  /\ OKStatuses config <> []
  /\ Duration (CheckInterval config) <> 0
  /\ Duration (HTTPTimeout config) <> 0
  /\ AlarmPeriods config <> 0
  /\ OKPeriods config <> 0.

(** The invariant of a target in the words of the specification. *)
Definition target_invariant (config : urlConfig) : Prop :=
  URL config <> EmptyString
  /\ OKStatuses config <> []
  /\ 0 < Duration (CheckInterval config)
  /\ 0 < Duration (HTTPTimeout config)
  /\ 1 <= OKPeriods config
  /\ 1 <= AlarmPeriods config.

(** The global fields are non-empty. *)
Definition globals_set (config : aliveConfig) : Prop :=
  SlackToken config <> EmptyString
  /\ SlackChannel config <> EmptyString
  /\ BotName config <> EmptyString.

(** ** The notifier *)

Definition checkStatusToString (status : checkStatus) : string :=
  match status with
  | checkStatusAlarm => "alarm"
  | checkStatusOk => "ok"
  | _ => "unknown"
  end.

(** [strings.ToUpper] on a string of ASCII bytes: the letters a-z move to
    A-Z and every other byte stays.  The branch for other strings, which
    maps runes through the Unicode tables, is left out; here the function
    is only applied to the results of [checkStatusToString]. *)
Definition upper_byte (c : ascii) : ascii :=
  let n := N_of_ascii c in
  if ((97 <=? n) && (n <=? 122))%N then ascii_of_N (n - 32) else c.

Fixpoint ToUpper (s : string) : string :=
  match s with
  | EmptyString => EmptyString
  | String c s' => String (upper_byte c) (ToUpper s')
  end.

(** The fields of [slack.Attachment] and [slack.PostMessageParameters] the
    program sets; all others keep their zero value. *)
Record Attachment : Type := {
  Color : string;
  Fallback : string;
  Text : string;
  MarkdownIn : list string
}.

Record PostMessageParameters : Type := {
  Username : string;
  Attachments : list Attachment
}.

Definition formatSlackMessage (botName : string) (change : statusChange)
  : PostMessageParameters :=
  let text :=
    (* fmt.Sprintf("%s (%s) *%s*", ...) *)
    (name change ++ " (" ++ url change ++ ") *"
     ++ ToUpper (checkStatusToString (to change)) ++ "*")%string in
  {| Username := botName;
     Attachments :=
       [ {| Color := match to change with
                     | checkStatusOk => "good"
                     | checkStatusAlarm => "danger"
                     | _ => ""
                     end;
            Fallback := text;
            Text := text;
            MarkdownIn := ["text"%string] |} ] |}.

(** One call [slackAPI.PostMessage(channel, text, params)]. *)
Record PostMessage : Type := {
  post_channel : string;
  post_text : string;
  post_params : PostMessageParameters
}.

(** What one pass of the notifier takes from outside: the event received
    from the channel and the error [PostMessage] returns for it. *)
Record delivery : Type := {
  change : statusChange;
  reply : error
}.

(** [slackNotifier] over the events received so far: the calls made, oldest
    first, and [Panic] when a call returned an error ([panic(err)]);
    [Ret tt] means the loop waits for the next event.  The lines written by
    [log.Printf] are left out. *)
Fixpoint slackNotifier (token channel botName : string)
         (incoming : list delivery) : list PostMessage * outcome unit :=
  match incoming with
  | [] => ([], Ret tt)
  | d :: incoming' =>
      let call := {| post_channel := channel;
                     post_text := "";
                     post_params := formatSlackMessage botName (change d) |} in
      match reply d with
      | Some _ => ([call], Panic)
      | None =>
          let (calls, r) := slackNotifier token channel botName incoming' in
          (call :: calls, r)
      end
  end.

(** ** [main] up to the start of the tasks *)

(** The tasks [main] has started when it enters its idle loop. *)
Record tasks : Type := {
  notifier : string * string * string;
  watchers : list urlConfig
}.

(** [ITSALIVE_CONFIG] is the value of the environment variable and
    [DecodeFile] stands for [toml.DecodeFile] on the files of the machine:
    the configuration read from a path, and the error.  [panic(err)] and
    [log.Panicf] are both [Panic]. *)
Definition main (ITSALIVE_CONFIG : string)
           (DecodeFile : string -> aliveConfig * error) : outcome tasks :=
  let configPath :=
    if RuneCountInString ITSALIVE_CONFIG =? 0 then "itsalive.toml"%string
    else ITSALIVE_CONFIG in
  let (config, err) := DecodeFile configPath in
  match err with
  | Some _ => Panic
  | None =>
      match validateConfig config with
      | Some _ => Panic
      | None =>
          Ret {| notifier := (SlackToken config, SlackChannel config,
                              BotName config);
                 watchers := map (fun conf => conf) (Items config) |}
      end
  end.

(** * Proofs *)

Lemma wrap_id z : is_int z -> wrap z = z.
Proof.
  unfold is_int, min_int, max_int, wrap. intros H.
  rewrite Z.mod_small by lia. lia.
Qed.

Lemma checkStatus_eqb_eq a b : checkStatus_eqb a b = true <-> a = b.
Proof.
  unfold checkStatus_eqb. rewrite Z.eqb_eq.
  destruct a, b; simpl; split; intros H;
    congruence || discriminate || reflexivity.
Qed.

Lemma checkStatus_eqb_refl a : checkStatus_eqb a a = true.
Proof. apply checkStatus_eqb_eq. reflexivity. Qed.

Lemma checkStatus_eqb_neq a b : checkStatus_eqb a b = false <-> a <> b.
Proof.
  rewrite <- checkStatus_eqb_eq. destruct (checkStatus_eqb a b); split; congruence.
Qed.

Lemma index_in_bounds {A : Type} (s : list A) (i : Z) :
  0 <= i < len s ->
  exists a, index s i = Ret a /\ nth_error s (Z.to_nat i) = Some a.
Proof.
  unfold index, len. intros H.
  replace ((i <? 0) || (Z.of_nat (length s) <=? i)) with false
    by (symmetry; apply orb_false_iff; split; [apply Z.ltb_ge | apply Z.leb_gt]; lia).
  destruct (nth_error s (Z.to_nat i)) as [a|] eqn:E.
  - eauto.
  - apply nth_error_None in E. lia.
Qed.

Lemma index_out_of_bounds {A : Type} (s : list A) (i : Z) :
  i < 0 \/ len s <= i -> index s i = Panic.
Proof.
  unfold index. intros H.
  replace ((i <? 0) || (len s <=? i)) with true; [reflexivity|].
  symmetry. apply orb_true_iff.
  destruct H; [left; apply Z.ltb_lt | right; apply Z.leb_le]; lia.
Qed.

(** ** The backward scan *)

Section ScanBack.
Variable history : list checkStatus.
Variable want : checkStatus.
Variable lo : Z.
Hypothesis len_int : len history <= max_int.
Hypothesis lo_nonneg : 0 <= lo.

Lemma scanBack_spec (fuel : nat) :
  forall idx,
    -1 <= idx < len history ->
    idx + 2 <= Z.of_nat fuel ->
    exists b, scanBack fuel history want lo idx = Ret b
              /\ (b = true <-> window_is want history lo idx).
Proof.
  induction fuel as [|fuel IH]; intros idx Hidx Hfuel; [lia|].
  cbn [scanBack]. rewrite Z.geb_leb.
  destruct (lo <=? idx) eqn:Hge.
  - apply Z.leb_le in Hge.
    destruct (index_in_bounds history idx) as (a & Ha & Hnth); [lia|].
    rewrite Ha. cbn [bind].
    destruct (checkStatus_eqb a want) eqn:Heq; cbn [negb].
    + apply checkStatus_eqb_eq in Heq. subst a.
      unfold int_sub. rewrite wrap_id
        by (unfold is_int, min_int, max_int in *; lia).
      destruct (IH (idx - 1)) as (b & Hb & Hiff); [lia | lia |].
      exists b. split; [exact Hb|]. rewrite Hiff.
      unfold window_is. split; intros W i Hi.
      * destruct (Z.eq_dec i idx) as [->|Hne]; [exact Hnth | apply W; lia].
      * apply W. lia.
    + exists false. split; [reflexivity|]. split; [discriminate|].
      intros W. apply checkStatus_eqb_neq in Heq.
      specialize (W idx ltac:(lia)). congruence.
  - apply Z.leb_gt in Hge. exists true. split; [reflexivity|].
    split; [|reflexivity]. intros _ i Hi. lia.
Qed.
End ScanBack.

(** The budget given to the scan is never what stops it, whatever the
    thresholds are: the scan starts below the length of the buffer and
    panics at index -1 at the latest. *)
Lemma scanBack_fuel (history : list checkStatus) (want : checkStatus)
      (lo : Z) (fuel : nat) :
  len history <= max_int ->
  forall idx,
    -1 <= idx < len history ->
    idx + 2 <= Z.of_nat fuel ->
    scanBack fuel history want lo idx <> OutOfFuel.
Proof.
  intros Hmax. induction fuel as [|fuel IH]; intros idx Hidx Hfuel; [lia|].
  cbn [scanBack]. destruct (idx >=? lo); [|discriminate].
  destruct (Z_lt_dec idx 0) as [Hneg|Hpos].
  - rewrite index_out_of_bounds by lia. discriminate.
  - destruct (index_in_bounds history idx) as (a & Ha & _); [lia|].
    rewrite Ha. cbn [bind].
    destruct (negb (checkStatus_eqb a want)); [discriminate|].
    unfold int_sub. rewrite wrap_id
      by (unfold is_int, min_int, max_int in *; lia).
    apply IH; lia.
Qed.

Lemma confirms_fuel (history : list checkStatus) (want : checkStatus)
      (periods : Z) :
  len history <= max_int -> confirms history want periods <> OutOfFuel.
Proof.
  intros Hmax. unfold confirms.
  destruct (Z_lt_dec 0 (len history)) as [Hpos|Hzero].
  - assert (Hint : forall k, 0 <= k <= 2 ->
                             int_sub (len history) k = len history - k).
    { intros k Hk. unfold int_sub. apply wrap_id.
      unfold is_int, min_int, max_int in *. lia. }
    rewrite (Hint 1), (Hint 2) by lia.
    destruct (index_in_bounds history (len history - 1)) as (a & Ha & _);
      [lia|].
    rewrite Ha. cbn [bind].
    destruct (checkStatus_eqb a want); [|discriminate].
    apply scanBack_fuel; [exact Hmax | lia | unfold len; lia].
  - assert (len history = 0) as E by (unfold len in *; lia).
    rewrite E. rewrite index_out_of_bounds; [discriminate|].
    left. vm_compute. reflexivity.
Qed.

Lemma getNewStatus_fuel (history : list checkStatus)
      (okPeriods alarmPeriods : Z) :
  len history <= max_int ->
  getNewStatus history okPeriods alarmPeriods <> OutOfFuel.
Proof.
  intros Hmax. unfold getNewStatus.
  pose proof (confirms_fuel history checkStatusOk okPeriods Hmax) as H1.
  pose proof (confirms_fuel history checkStatusAlarm alarmPeriods Hmax) as H2.
  destruct (confirms history checkStatusOk okPeriods) as [[|]| |];
    cbn [bind]; try discriminate; try congruence.
  destruct (confirms history checkStatusAlarm alarmPeriods) as [[|]| |];
    cbn [bind]; try discriminate; congruence.
Qed.

Lemma In_skipn_nth {A : Type} (k : nat) (l : list A) (x : A) :
  In x (skipn k l) <-> exists i, (k <= i)%nat /\ nth_error l i = Some x.
Proof.
  split.
  - intros H. apply In_nth_error in H. destruct H as [j Hj].
    rewrite nth_error_skipn in Hj. exists (k + j)%nat. split; [lia | exact Hj].
  - intros (i & Hi & Hnth). apply nth_error_In with (n := (i - k)%nat).
    rewrite nth_error_skipn. replace (k + (i - k))%nat with i by lia. exact Hnth.
Qed.

Lemma all_are_lastn (want : checkStatus) (h : list checkStatus) (n : Z) :
  0 <= n <= len h ->
  all_are want (lastn n h) = true <-> window_is want h (len h - n) (len h - 1).
Proof.
  unfold all_are, lastn, window_is, len. intros Hn.
  rewrite forallb_forall. split.
  - intros H i Hi.
    destruct (nth_error h (Z.to_nat i)) as [a|] eqn:E.
    + f_equal. apply checkStatus_eqb_eq. apply H. apply In_skipn_nth.
      exists (Z.to_nat i). split; [lia | exact E].
    + apply nth_error_None in E. lia.
  - intros W x Hx. apply In_skipn_nth in Hx. destruct Hx as (i & Hi & Hnth).
    assert (nth_error h i <> None) as Hlt by congruence.
    apply nth_error_Some in Hlt.
    specialize (W (Z.of_nat i) ltac:(lia)). rewrite Nat2Z.id in W.
    apply checkStatus_eqb_eq. congruence.
Qed.

Lemma bool_eq_iff (a b : bool) : (a = true <-> b = true) -> a = b.
Proof. destruct a, b; intros [H1 H2]; try reflexivity; [symmetry|]; auto. Qed.

(** What one [if history[size-1] == want] block computes. *)
Lemma confirms_spec (h : list checkStatus) (want : checkStatus) (periods : Z) :
  len h <= max_int -> 1 <= periods <= len h ->
  confirms h want periods = Ret (all_are want (lastn periods h)).
Proof.
  intros Hlen Hp. unfold confirms.
  assert (Hint : forall k, 0 <= k <= len h + 1 -> int_sub (len h) k = len h - k).
  { intros k Hk. unfold int_sub. apply wrap_id.
    unfold is_int, min_int, max_int in *. lia. }
  rewrite (Hint 1) by lia.
  destruct (index_in_bounds h (len h - 1)) as (a & Ha & Hnth); [lia|].
  rewrite Ha. cbn [bind].
  pose proof (all_are_lastn want h periods ltac:(lia)) as Hall.
  destruct (checkStatus_eqb a want) eqn:Heq.
  - rewrite (Hint periods), (Hint 2) by lia.
    apply checkStatus_eqb_eq in Heq. subst a.
    destruct (scanBack_spec h want (len h - periods) Hlen ltac:(lia)
                (length h) (len h - 2)) as (b & Hb & Hiff);
      [lia | unfold len; lia |].
    rewrite Hb. f_equal. apply bool_eq_iff. rewrite Hiff, Hall.
    unfold window_is. split; intros W i Hi.
    + destruct (Z.eq_dec i (len h - 1)) as [->|Hne]; [exact Hnth | apply W; lia].
    + apply W. lia.
  - f_equal. symmetry. apply not_true_is_false. intros Ht.
    apply Hall in Ht. specialize (Ht (len h - 1) ltac:(lia)).
    apply checkStatus_eqb_neq in Heq. congruence.
Qed.

Lemma getNewStatus_rule (h : list checkStatus) (okPeriods alarmPeriods : Z) :
  len h <= max_int ->
  1 <= okPeriods <= len h -> 1 <= alarmPeriods <= len h ->
  getNewStatus h okPeriods alarmPeriods = Ret (rule h okPeriods alarmPeriods).
Proof.
  intros Hlen Hok Hal. unfold getNewStatus, rule.
  rewrite (confirms_spec h checkStatusOk okPeriods Hlen Hok). cbn [bind].
  destruct (all_are checkStatusOk (lastn okPeriods h)); [reflexivity|].
  rewrite (confirms_spec h checkStatusAlarm alarmPeriods Hlen Hal). cbn [bind].
  destruct (all_are checkStatusAlarm (lastn alarmPeriods h)); reflexivity.
Qed.

Lemma lastn_app_exact {A : Type} (older recent : list A) :
  lastn (len recent) (older ++ recent) = recent.
Proof.
  unfold lastn, len. rewrite Nat2Z.id, length_app.
  replace (length older + length recent - length recent)%nat
    with (length older + 0)%nat by lia.
  rewrite skipn_app, Nat.add_0_r, skipn_all.
  replace (length older - length older)%nat with 0%nat by lia. reflexivity.
Qed.

Lemma max_spec (x y : Z) : max x y = Z.max x y.
Proof. unfold max. rewrite Z.gtb_ltb. destruct (y <? x) eqn:E; lia. Qed.

(** The buffer [watchURL] allocates meets the precondition of the
    evaluator. *)
Lemma window_precondition (h : list checkStatus) (okPeriods alarmPeriods : Z) :
  is_int okPeriods -> is_int alarmPeriods ->
  len h = max okPeriods alarmPeriods ->
  1 <= okPeriods -> 1 <= alarmPeriods ->
  len h <= max_int /\ 1 <= okPeriods <= len h /\ 1 <= alarmPeriods <= len h.
Proof.
  unfold is_int. rewrite max_spec. intros. lia.
Qed.

(** C1: on a buffer of length max(N_ok, N_alarm) with both thresholds at
    least 1, [getNewStatus] returns Ok if the last N_ok entries are all Ok,
    otherwise Alarm if the last N_alarm entries are all Alarm, otherwise
    Unknown; in particular a buffer ending in N_ok entries Ok evaluates to
    Ok whatever the older entries are. *)
Theorem getNewStatus_follows_rule :
  forall (history : list checkStatus) (okPeriods alarmPeriods : Z),
    is_int okPeriods -> is_int alarmPeriods ->
    len history = max okPeriods alarmPeriods ->
    1 <= okPeriods -> 1 <= alarmPeriods ->
    getNewStatus history okPeriods alarmPeriods
    = Ret (if all_are checkStatusOk (lastn okPeriods history)
           then checkStatusOk
           else if all_are checkStatusAlarm (lastn alarmPeriods history)
                then checkStatusAlarm
                else checkStatusUnknown)
    /\ (forall older recent,
           history = older ++ recent ->
           len recent = okPeriods ->
           all_are checkStatusOk recent = true ->
           getNewStatus history okPeriods alarmPeriods = Ret checkStatusOk).
Proof.
  intros h ok al Hok Hal Hlen H1 H2.
  destruct (window_precondition h ok al Hok Hal Hlen H1 H2) as (Hm & Ho & Ha).
  pose proof (getNewStatus_rule h ok al Hm Ho Ha) as Hr. unfold rule in Hr.
  split; [exact Hr|].
  intros older recent -> Hrec Hall. rewrite Hr.
  rewrite <- Hrec, lastn_app_exact, Hall. reflexivity.
Qed.

Lemma getNewStatus_follows_rule_witness :
  getNewStatus [checkStatusAlarm; checkStatusOk; checkStatusOk] 2 3
  = Ret checkStatusOk.
Proof.
  destruct (getNewStatus_follows_rule
              [checkStatusAlarm; checkStatusOk; checkStatusOk] 2 3) as [_ H].
  - unfold is_int, min_int, max_int; lia.
  - unfold is_int, min_int, max_int; lia.
  - reflexivity.
  - lia.
  - lia.
  - apply (H [checkStatusAlarm] [checkStatusOk; checkStatusOk]); reflexivity.
Defined.

(** ** Differing and neutral entries inside the windows *)

Lemma all_are_In (want : checkStatus) (l : list checkStatus) :
  all_are want l = true <-> forall x, In x l -> x = want.
Proof.
  unfold all_are. rewrite forallb_forall. split; intros H x Hx.
  - apply checkStatus_eqb_eq. auto.
  - apply checkStatus_eqb_eq. auto.
Qed.

Lemma differing_not_all_are (want : checkStatus) (l : list checkStatus) :
  differing l -> all_are want l = false.
Proof.
  intros (a & b & Ha & Hb & Hab). apply not_true_is_false. intros Hall.
  rewrite all_are_In in Hall. apply Hab.
  rewrite (Hall a Ha), (Hall b Hb). reflexivity.
Qed.

Lemma In_lastn_le {A : Type} (n m : Z) (l : list A) (x : A) :
  n <= m -> In x (lastn n l) -> In x (lastn m l).
Proof.
  unfold lastn. intros Hnm. rewrite !In_skipn_nth.
  intros (i & Hi & Hnth). exists i. split; [lia | exact Hnth].
Qed.

Lemma differing_lastn_le (n m : Z) (l : list checkStatus) :
  n <= m -> differing (lastn n l) -> differing (lastn m l).
Proof.
  intros Hnm (a & b & Ha & Hb & Hab).
  exists a, b. eauto using In_lastn_le.
Qed.

(** C2 as stated fails: with N_ok = 3 and N_alarm = 1 the buffer
    [Ok, Ok, Alarm] has a differing entry within its last N_ok positions
    and still evaluates to Alarm. *)
Lemma differing_entry_counterexample :
  let history := [checkStatusOk; checkStatusOk; checkStatusAlarm] in
  len history = max 3 1
  /\ (differing (lastn 3 history) \/ differing (lastn 1 history))
  /\ getNewStatus history 3 1 = Ret checkStatusAlarm
  /\ getNewStatus history 3 1 <> Ret checkStatusUnknown.
Proof.
  cbv zeta. split; [reflexivity|]. split.
  - left. exists checkStatusOk, checkStatusAlarm.
    vm_compute. repeat split; auto 6; discriminate.
  - split; [reflexivity | discriminate].
Qed.

(** C2, amended: a differing entry within the last N_ok positions rules out
    Ok, a differing entry within the last N_alarm positions rules out Alarm;
    the result is Unknown when both windows hold a differing entry, in
    particular when the last min(N_ok, N_alarm) positions do. *)
Theorem differing_entry_blocks_its_own_confirmation :
  forall (history : list checkStatus) (okPeriods alarmPeriods : Z),
    is_int okPeriods -> is_int alarmPeriods ->
    len history = max okPeriods alarmPeriods ->
    1 <= okPeriods -> 1 <= alarmPeriods ->
    exists s,
      getNewStatus history okPeriods alarmPeriods = Ret s
      /\ (differing (lastn okPeriods history) -> s <> checkStatusOk)
      /\ (differing (lastn alarmPeriods history) -> s <> checkStatusAlarm)
      /\ (differing (lastn okPeriods history) ->
          differing (lastn alarmPeriods history) -> s = checkStatusUnknown)
      /\ (differing (lastn (Z.min okPeriods alarmPeriods) history) ->
          s = checkStatusUnknown).
Proof.
  intros h ok al Hok Hal Hlen H1 H2.
  destruct (window_precondition h ok al Hok Hal Hlen H1 H2) as (Hm & Ho & Ha).
  rewrite (getNewStatus_rule h ok al Hm Ho Ha). unfold rule.
  eexists. split; [reflexivity|].
  assert (Hboth : differing (lastn ok h) -> differing (lastn al h) ->
                  (if all_are checkStatusOk (lastn ok h) then checkStatusOk
                   else if all_are checkStatusAlarm (lastn al h)
                        then checkStatusAlarm else checkStatusUnknown)
                  = checkStatusUnknown).
  { intros Dok Dal.
    rewrite (differing_not_all_are checkStatusOk _ Dok).
    rewrite (differing_not_all_are checkStatusAlarm _ Dal). reflexivity. }
  repeat split.
  - intros D. rewrite (differing_not_all_are checkStatusOk _ D).
    destruct (all_are checkStatusAlarm (lastn al h)); discriminate.
  - intros D. rewrite (differing_not_all_are checkStatusAlarm _ D).
    destruct (all_are checkStatusOk (lastn ok h)); discriminate.
  - exact Hboth.
  - intros D. apply Hboth; apply (differing_lastn_le (Z.min ok al)); auto; lia.
Qed.

Lemma differing_entry_blocks_its_own_confirmation_witness :
  exists s,
    getNewStatus [checkStatusOk; checkStatusAlarm; checkStatusOk] 3 2 = Ret s
    /\ s = checkStatusUnknown.
Proof.
  destruct (differing_entry_blocks_its_own_confirmation
              [checkStatusOk; checkStatusAlarm; checkStatusOk] 3 2)
    as (s & Hs & _ & _ & _ & Hmin).
  - unfold is_int, min_int, max_int; lia.
  - unfold is_int, min_int, max_int; lia.
  - reflexivity.
  - lia.
  - lia.
  - exists s. split; [exact Hs|]. apply Hmin.
    exists checkStatusAlarm, checkStatusOk.
    vm_compute. repeat split; auto 6; discriminate.
Defined.

(** C3 as stated fails: with N_ok = 1 and N_alarm = 3 the buffer after the
    first poll, [Unknown, Unknown, Ok], still holds neutral entries and
    evaluates to Ok. *)
Lemma neutral_entry_counterexample :
  let history := [checkStatusUnknown; checkStatusUnknown; checkStatusOk] in
  len history = max 1 3
  /\ In checkStatusUnknown history
  /\ getNewStatus history 1 3 = Ret checkStatusOk
  /\ getNewStatus history 1 3 <> Ret checkStatusUnknown.
Proof.
  cbv zeta. split; [reflexivity|]. split; [vm_compute; auto|].
  split; [reflexivity | discriminate].
Qed.

Lemma In_not_all_are (want x : checkStatus) (l : list checkStatus) :
  In x l -> x <> want -> all_are want l = false.
Proof.
  intros Hin Hne. apply not_true_is_false. intros Hall.
  rewrite all_are_In in Hall. auto.
Qed.

(** C3, amended: a neutral entry within the last N_ok positions rules out
    Ok and one within the last N_alarm positions rules out Alarm; the result
    is Unknown when a neutral entry lies within the last min(N_ok, N_alarm)
    positions, hence for any buffer holding a neutral entry when
    N_ok = N_alarm. *)
Theorem neutral_entry_blocks_confirmation :
  forall (history : list checkStatus) (okPeriods alarmPeriods : Z),
    is_int okPeriods -> is_int alarmPeriods ->
    len history = max okPeriods alarmPeriods ->
    1 <= okPeriods -> 1 <= alarmPeriods ->
    exists s,
      getNewStatus history okPeriods alarmPeriods = Ret s
      /\ (In checkStatusUnknown (lastn okPeriods history) ->
          s <> checkStatusOk)
      /\ (In checkStatusUnknown (lastn alarmPeriods history) ->
          s <> checkStatusAlarm)
      /\ (In checkStatusUnknown
             (lastn (Z.min okPeriods alarmPeriods) history) ->
          s = checkStatusUnknown)
      /\ (okPeriods = alarmPeriods -> In checkStatusUnknown history ->
          s = checkStatusUnknown).
Proof.
  intros h ok al Hok Hal Hlen H1 H2.
  destruct (window_precondition h ok al Hok Hal Hlen H1 H2) as (Hm & Ho & Ha).
  rewrite (getNewStatus_rule h ok al Hm Ho Ha). unfold rule.
  eexists. split; [reflexivity|].
  assert (Hboth : In checkStatusUnknown (lastn ok h) ->
                  In checkStatusUnknown (lastn al h) ->
                  (if all_are checkStatusOk (lastn ok h) then checkStatusOk
                   else if all_are checkStatusAlarm (lastn al h)
                        then checkStatusAlarm else checkStatusUnknown)
                  = checkStatusUnknown).
  { intros Iok Ial.
    rewrite (In_not_all_are checkStatusOk _ _ Iok) by discriminate.
    rewrite (In_not_all_are checkStatusAlarm _ _ Ial) by discriminate.
    reflexivity. }
  repeat split.
  - intros I. rewrite (In_not_all_are checkStatusOk _ _ I) by discriminate.
    destruct (all_are checkStatusAlarm (lastn al h)); discriminate.
  - intros I. rewrite (In_not_all_are checkStatusAlarm _ _ I) by discriminate.
    destruct (all_are checkStatusOk (lastn ok h)); discriminate.
  - intros I. apply Hboth; apply (In_lastn_le (Z.min ok al)); auto; lia.
  - intros -> I. rewrite max_spec, Z.max_id in Hlen.
    assert (lastn al h = h) as E.
    { unfold lastn. unfold len in Hlen. rewrite <- Hlen, Nat2Z.id, Nat.sub_diag.
      reflexivity. }
    apply Hboth; rewrite E; exact I.
Qed.

Lemma neutral_entry_blocks_confirmation_witness :
  exists s,
    getNewStatus [checkStatusUnknown; checkStatusOk] 2 2 = Ret s
    /\ s = checkStatusUnknown.
Proof.
  destruct (neutral_entry_blocks_confirmation
              [checkStatusUnknown; checkStatusOk] 2 2)
    as (s & Hs & _ & _ & _ & Heq).
  - unfold is_int, min_int, max_int; lia.
  - unfold is_int, min_int, max_int; lia.
  - reflexivity.
  - lia.
  - lia.
  - exists s. split; [exact Hs|]. apply Heq; [reflexivity | vm_compute; auto].
Defined.

(** C9: when both thresholds lie between 1 and the length of the buffer,
    which holds for the buffer of length max(okPeriods, alarmPeriods) that
    [watchURL] allocates, every read of [getNewStatus] is in bounds: the
    function returns a status and never reaches the out-of-bounds panic. *)
Theorem getNewStatus_reads_in_bounds :
  forall (history : list checkStatus) (okPeriods alarmPeriods : Z),
    len history <= max_int ->
    1 <= okPeriods <= len history ->
    1 <= alarmPeriods <= len history ->
    (exists s, getNewStatus history okPeriods alarmPeriods = Ret s)
    /\ getNewStatus history okPeriods alarmPeriods <> Panic.
Proof.
  intros h ok al Hm Ho Ha.
  rewrite (getNewStatus_rule h ok al Hm Ho Ha).
  split; [eauto | discriminate].
Qed.

Lemma getNewStatus_reads_in_bounds_witness :
  getNewStatus [checkStatusOk; checkStatusAlarm; checkStatusAlarm] 3 2 <> Panic.
Proof.
  apply (getNewStatus_reads_in_bounds
           [checkStatusOk; checkStatusAlarm; checkStatusAlarm] 3 2).
  - unfold len, max_int. cbn. lia.
  - unfold len. cbn. lia.
  - unfold len. cbn. lia.
Defined.

(** Outside that precondition the panic is reachable: a threshold larger
    than the buffer walks the scan to index -1. *)
Example getNewStatus_panics_beyond_buffer :
  getNewStatus [checkStatusOk; checkStatusOk] 3 1 = Panic.
Proof. reflexivity. Qed.

Example getNewStatus_panics_on_empty :
  getNewStatus [] 1 1 = Panic.
Proof. reflexivity. Qed.

(** ** [checkResponse] *)

Lemma intInSlice_In (a : Z) (slice : list Z) :
  intInSlice a slice = true <-> In a slice.
Proof.
  unfold intInSlice. rewrite existsb_exists. split.
  - intros (b & Hb & Heq). apply Z.eqb_eq in Heq. subst. exact Hb.
  - intros H. exists a. split; [exact H | apply Z.eqb_refl].
Qed.

Lemma checkResponse_total (resp : option Response) (err : error)
      (config : urlConfig) :
  (err = None -> resp <> None) ->
  exists result, checkResponse resp err config = Ret result.
Proof.
  intros Hwf. unfold checkResponse. destruct err; [eauto|].
  destruct resp; [eauto|]. exfalso. apply Hwf; reflexivity.
Qed.

(** C7: [checkResponse] reports Ok exactly when the request gave no
    transport error and the status code of the response is one of the
    acceptable codes; an error or any other code gives Alarm. *)
Theorem checkResponse_ok_iff :
  forall (resp : option Response) (err : error) (config : urlConfig),
    (err = None -> resp <> None) ->
    exists result,
      checkResponse resp err config = Ret result
      /\ (result = true <->
          err = None
          /\ exists r, resp = Some r
                       /\ In (StatusCode r) (OKStatuses config))
      /\ (err <> None -> result = false)
      /\ (forall r, resp = Some r ->
                    ~ In (StatusCode r) (OKStatuses config) ->
                    result = false).
Proof.
  intros resp err config Hwf. unfold checkResponse.
  destruct err as [msg|].
  - exists false. split; [reflexivity|]. split.
    + split; [discriminate|]. intros [H _]. discriminate.
    + split; reflexivity.
  - destruct resp as [r|]; [|exfalso; apply Hwf; reflexivity].
    exists (intInSlice (StatusCode r) (OKStatuses config)).
    split; [reflexivity|]. split.
    + rewrite intInSlice_In. split.
      * intros H. split; [reflexivity|]. eauto.
      * intros (_ & r' & Hr & Hin). injection Hr as <-. exact Hin.
    + split; [congruence|].
      intros r' Hr Hnot. injection Hr as <-.
      apply not_true_is_false. rewrite intInSlice_In. exact Hnot.
Qed.

Lemma checkResponse_ok_iff_witness :
  exists result,
    checkResponse (Some {| StatusCode := 503 |}) None
      {| Name := "api"; URL := "http://a"; OKStatuses := [200; 204];
         CheckInterval := {| Duration := 1 |}; OKPeriods := 2;
         AlarmPeriods := 2; HTTPTimeout := {| Duration := 1 |} |}
    = Ret result
    /\ result = false.
Proof.
  destruct (checkResponse_ok_iff (Some {| StatusCode := 503 |}) None
      {| Name := "api"; URL := "http://a"; OKStatuses := [200; 204];
         CheckInterval := {| Duration := 1 |}; OKPeriods := 2;
         AlarmPeriods := 2; HTTPTimeout := {| Duration := 1 |} |})
    as (result & Hrun & _ & _ & Hcode).
  - discriminate.
  - exists result. split; [exact Hrun|].
    apply (Hcode {| StatusCode := 503 |}); [reflexivity|].
    cbn. intros [H|[H|[]]]; discriminate.
Defined.

(** ** The validator *)

Lemma runeCount_nonneg (fuel : nat) : forall s, 0 <= runeCount fuel s.
Proof.
  induction fuel as [|fuel IH]; intros s; cbn [runeCount]; [lia|].
  destruct s; [lia|]. specialize (IH (skipn (runeWidth (z :: s)) (z :: s))). lia.
Qed.

Lemma runeWidth_bounds (s : list Z) :
  s <> [] -> (1 <= runeWidth s <= 4)%nat.
Proof.
  destruct s as [|c rest]; [congruence|]. intros _. unfold runeWidth.
  repeat match goal with
         | |- context [if ?b then _ else _] => destruct b
         | |- context [match ?x with _ => _ end] => destruct x
         end; lia.
Qed.

(** The budget of [RuneCountInString] is never the reason the count
    stops: any larger one gives the same count. *)
Lemma runeCount_fuel (fuel : nat) :
  forall s fuel', (length s <= fuel)%nat -> (length s <= fuel')%nat ->
                  runeCount fuel s = runeCount fuel' s.
Proof.
  induction fuel as [|fuel IH]; intros s fuel' H1 H2.
  - destruct s; [|cbn in H1; lia]. destruct fuel'; reflexivity.
  - destruct s as [|c rest]; [destruct fuel'; reflexivity|].
    destruct fuel' as [|fuel']; [cbn in H2; lia|].
    cbn [runeCount]. f_equal.
    pose proof (runeWidth_bounds (c :: rest) ltac:(discriminate)) as Hw.
    apply IH; rewrite length_skipn; cbn [length] in *; lia.
Qed.

Lemma RuneCountInString_zero (s : string) :
  (RuneCountInString s =? 0) = true <-> s = EmptyString.
Proof.
  rewrite Z.eqb_eq. unfold RuneCountInString, bytes_of.
  destruct s as [|c s]; cbn [list_ascii_of_string map length runeCount].
  - split; reflexivity.
  - split; [|discriminate]. intros H.
    match type of H with 1 + runeCount ?f ?l = 0 =>
      pose proof (runeCount_nonneg f l) end. lia.
Qed.

Lemma Seconds_zero (d : duration) :
  Qeq_bool (Seconds d) 0 = true <-> Duration d = 0.
Proof.
  rewrite Qeq_bool_iff. unfold Seconds, Second.
  pose proof (Z.quot_rem' (Duration d) 1000000000) as Hqr.
  unfold Qeq, Qplus, Qdiv, Qmult, Qinv, inject_Z. cbn [Qnum Qden].
  split.
  - intros H. lia.
  - intros H. rewrite H. reflexivity.
Qed.

Lemma len_zero {A : Type} (l : list A) : (len l =? 0) = true <-> l = [].
Proof.
  rewrite Z.eqb_eq. unfold len. destruct l; cbn [length]; split;
    intros H; try reflexivity; try discriminate; lia.
Qed.

(** A guard that fires: the result is an error, and the field it tested
    has its zero value, which [no_zero_field] excludes. *)
Ltac guard_fires H :=
  split;
  [ discriminate
  | let Hnz := fresh "Hnz" in
    intros Hnz; decompose [and] Hnz; exfalso;
    match goal with
    | N : _ <> _ |- _ => apply N, H; reflexivity
    end ].

Lemma validateURLConfig_nil_iff (config : urlConfig) :
  validateURLConfig config = None <-> no_zero_field config.
Proof.
  unfold validateURLConfig, no_zero_field, errors_New.
  pose proof (RuneCountInString_zero (URL config)) as H1.
  pose proof (len_zero (OKStatuses config)) as H2.
  pose proof (Seconds_zero (CheckInterval config)) as H3.
  pose proof (Seconds_zero (HTTPTimeout config)) as H4.
  pose proof (Z.eqb_eq (AlarmPeriods config) 0) as H5.
  pose proof (Z.eqb_eq (OKPeriods config) 0) as H6.
  destruct (RuneCountInString (URL config) =? 0); [guard_fires H1|].
  destruct (len (OKStatuses config) =? 0); [guard_fires H2|].
  destruct (Qeq_bool (Seconds (CheckInterval config)) 0); [guard_fires H3|].
  destruct (Qeq_bool (Seconds (HTTPTimeout config)) 0); [guard_fires H4|].
  destruct (AlarmPeriods config =? 0); [guard_fires H5|].
  destruct (OKPeriods config =? 0); [guard_fires H6|].
  split; [|reflexivity]. intros _.
  repeat split; intros E;
    [apply H1 in E | apply H2 in E | apply H3 in E
     | apply H4 in E | apply H5 in E | apply H6 in E]; discriminate.
Qed.

(** C5 as stated fails: a target with N_ok = -1 and a negative poll
    interval violates the invariant and is accepted. *)
Lemma validateURLConfig_counterexample :
  let config := {| Name := "api"; URL := "http://a"; OKStatuses := [200];
                   CheckInterval := {| Duration := -5 |}; OKPeriods := -1;
                   AlarmPeriods := 2; HTTPTimeout := {| Duration := 1 |} |} in
  OKPeriods config < 1
  /\ ~ 0 < Duration (CheckInterval config)
  /\ ~ target_invariant config
  /\ validateURLConfig config = None.
Proof.
  cbv zeta. cbn [OKPeriods CheckInterval Duration].
  split; [lia|]. split; [lia|]. split; [|reflexivity].
  unfold target_invariant. cbn. lia.
Qed.

(** C5, amended: [validateURLConfig] returns an error exactly when a tested
    field has its zero value: the url is empty, the status-code set is
    empty, the poll interval is zero, the HTTP timeout is zero, N_alarm is 0
    or N_ok is 0.  On targets whose intervals and period counts are not
    negative this is the invariant of the specification. *)
Theorem validateURLConfig_rejects_zero_fields :
  forall config : urlConfig,
    (validateURLConfig config = None <-> no_zero_field config)
    /\ (validateURLConfig config <> None <->
        URL config = EmptyString
        \/ OKStatuses config = []
        \/ Duration (CheckInterval config) = 0
        \/ Duration (HTTPTimeout config) = 0
        \/ AlarmPeriods config = 0
        \/ OKPeriods config = 0)
    /\ (target_invariant config -> validateURLConfig config = None)
    /\ (0 <= Duration (CheckInterval config) ->
        0 <= Duration (HTTPTimeout config) ->
        0 <= OKPeriods config -> 0 <= AlarmPeriods config ->
        (validateURLConfig config = None <-> target_invariant config)).
Proof.
  intros config. pose proof (validateURLConfig_nil_iff config) as Hnil.
  split; [exact Hnil|]. split; [|split].
  - rewrite Hnil. unfold no_zero_field.
    destruct (string_dec (URL config) EmptyString) as [E1|N1];
      [split; [auto | intros _ (N & _); auto]|].
    destruct (OKStatuses config) as [|a l] eqn:E2;
      [split; [auto | intros _ (_ & N & _); auto]|].
    destruct (Z.eq_dec (Duration (CheckInterval config)) 0) as [E3|N3];
      [split; [auto | intros _ (_ & _ & N & _); auto]|].
    destruct (Z.eq_dec (Duration (HTTPTimeout config)) 0) as [E4|N4];
      [split; [auto 6 | intros _ (_ & _ & _ & N & _); auto]|].
    destruct (Z.eq_dec (AlarmPeriods config) 0) as [E5|N5];
      [split; [auto 6 | intros _ (_ & _ & _ & _ & N & _); auto]|].
    destruct (Z.eq_dec (OKPeriods config) 0) as [E6|N6];
      [split; [auto 7 | intros _ (_ & _ & _ & _ & _ & N); auto]|].
    split.
    + intros H. exfalso. apply H. repeat split; auto; discriminate.
    + intros [H|[H|[H|[H|[H|H]]]]]; congruence.
  - rewrite Hnil. unfold target_invariant, no_zero_field.
    intros (H1 & H2 & H3 & H4 & H5 & H6). repeat split; auto; lia.
  - intros P1 P2 P3 P4. rewrite Hnil. unfold target_invariant, no_zero_field.
    split; intros (H1 & H2 & H3 & H4 & H5 & H6); repeat split; auto; lia.
Qed.

Lemma validateURLConfig_rejects_zero_fields_witness :
  validateURLConfig
    {| Name := "api"; URL := "http://a"; OKStatuses := [200];
       CheckInterval := {| Duration := 30 * Second |}; OKPeriods := 3;
       AlarmPeriods := 2; HTTPTimeout := {| Duration := 5 * Second |} |}
  = None.
Proof.
  destruct (validateURLConfig_rejects_zero_fields
    {| Name := "api"; URL := "http://a"; OKStatuses := [200];
       CheckInterval := {| Duration := 30 * Second |}; OKPeriods := 3;
       AlarmPeriods := 2; HTTPTimeout := {| Duration := 5 * Second |} |})
    as (_ & _ & Hinv & _).
  apply Hinv. unfold target_invariant, Second. cbn.
  repeat split; try discriminate; lia.
Defined.

Lemma validateItems_nil_iff (items : list urlConfig) :
  forall idx,
    validateItems idx items = None
    <-> Forall (fun conf => validateURLConfig conf = None) items.
Proof.
  induction items as [|conf items IH]; intros idx; cbn [validateItems].
  - split; [constructor | reflexivity].
  - destruct (validateURLConfig conf) as [msg|] eqn:E.
    + split; [discriminate|]. intros H. inversion H. congruence.
    + rewrite IH. split; [intros H; constructor; assumption|].
      intros H. inversion H. assumption.
Qed.

(** The loop stops at the first target that fails and tags the message with
    the index of that target. *)
Lemma validateItems_first_failure (before : list urlConfig) :
  forall idx conf after msg,
    Forall (fun c => validateURLConfig c = None) before ->
    validateURLConfig conf = Some msg ->
    0 <= idx -> idx + len before <= max_int ->
    validateItems idx (before ++ conf :: after)
    = Some ("invalid item " ++ format_d (idx + len before) ++ ": " ++ msg)%string.
Proof.
  induction before as [|b before IH]; intros idx conf after msg Hvalid Hbad H0 Hmax.
  - cbn [app validateItems]. rewrite Hbad. unfold len. cbn [length].
    rewrite Z.add_0_r. reflexivity.
  - inversion Hvalid as [|? ? Hb Hrest]; subst.
    cbn [app validateItems]. rewrite Hb.
    unfold len in *. cbn [length] in *.
    unfold int_add. rewrite wrap_id
      by (unfold is_int, min_int, max_int in *; lia).
    rewrite (IH (idx + 1) conf after msg Hrest Hbad) by lia.
    replace (idx + 1 + Z.of_nat (length before))
      with (idx + Z.of_nat (S (length before))) by lia.
    reflexivity.
Qed.

Lemma validateConfig_items (config : aliveConfig) :
  globals_set config -> Items config <> [] ->
  validateConfig config = validateItems 0 (Items config).
Proof.
  intros (H1 & H2 & H3) H4. unfold validateConfig.
  pose proof (RuneCountInString_zero (SlackToken config)) as E1.
  pose proof (RuneCountInString_zero (SlackChannel config)) as E2.
  pose proof (RuneCountInString_zero (BotName config)) as E3.
  pose proof (len_zero (Items config)) as E4.
  destruct (RuneCountInString (SlackToken config) =? 0);
    [exfalso; apply H1, E1; reflexivity|].
  destruct (RuneCountInString (SlackChannel config) =? 0);
    [exfalso; apply H2, E2; reflexivity|].
  destruct (RuneCountInString (BotName config) =? 0);
    [exfalso; apply H3, E3; reflexivity|].
  destruct (len (Items config) =? 0);
    [exfalso; apply H4, E4; reflexivity|].
  reflexivity.
Qed.

Lemma validateConfig_nil_iff (config : aliveConfig) :
  validateConfig config = None
  <-> globals_set config
      /\ Items config <> []
      /\ Forall (fun conf => validateURLConfig conf = None) (Items config).
Proof.
  split.
  - intros H. unfold validateConfig, errors_New in H.
    pose proof (RuneCountInString_zero (SlackToken config)) as E1.
    pose proof (RuneCountInString_zero (SlackChannel config)) as E2.
    pose proof (RuneCountInString_zero (BotName config)) as E3.
    pose proof (len_zero (Items config)) as E4.
    destruct (RuneCountInString (SlackToken config) =? 0); [discriminate|].
    destruct (RuneCountInString (SlackChannel config) =? 0); [discriminate|].
    destruct (RuneCountInString (BotName config) =? 0); [discriminate|].
    destruct (len (Items config) =? 0); [discriminate|].
    apply validateItems_nil_iff in H.
    unfold globals_set.
    repeat split; try exact H; intros E;
      [apply E1 in E | apply E2 in E | apply E3 in E | apply E4 in E];
      discriminate.
  - intros (G & N & F). rewrite (validateConfig_items config G N).
    apply validateItems_nil_iff. exact F.
Qed.

Lemma validateURLConfig_empty_set (conf : urlConfig) :
  URL conf <> EmptyString -> OKStatuses conf = [] ->
  validateURLConfig conf = Some "empty OKStatuses"%string.
Proof.
  intros Hurl Hset. unfold validateURLConfig, errors_New.
  pose proof (RuneCountInString_zero (URL conf)) as E1.
  destruct (RuneCountInString (URL conf) =? 0);
    [exfalso; apply Hurl, E1; reflexivity|].
  rewrite Hset. reflexivity.
Qed.

(** C6: [validateConfig] returns the first violation found, tagged with
    the index of the failing target: the first target that fails gives
    "invalid item i: msg" with its index and the message of
    [validateURLConfig]; when the globals are set, the targets at indices 0
    and 1 are valid and the first violation of the target at index 2 is its
    empty status-code set (its url is set), the error is
    "invalid item 2: empty OKStatuses"; the result is nil exactly when the
    global fields are non-empty, there is at least one target and every
    target passes [validateURLConfig]. *)
Theorem validateConfig_first_violation :
  forall config : aliveConfig,
    (forall before conf after msg,
        globals_set config ->
        len (Items config) <= max_int ->
        Items config = before ++ conf :: after ->
        Forall (fun c => validateURLConfig c = None) before ->
        validateURLConfig conf = Some msg ->
        validateConfig config
        = Some ("invalid item " ++ format_d (len before) ++ ": " ++ msg)%string)
    /\ (forall c0 c1 c2 rest,
           globals_set config ->
           Items config = c0 :: c1 :: c2 :: rest ->
           validateURLConfig c0 = None ->
           validateURLConfig c1 = None ->
           URL c2 <> EmptyString ->
           OKStatuses c2 = [] ->
           validateConfig config
           = Some "invalid item 2: empty OKStatuses"%string)
    /\ (validateConfig config = None
        <-> globals_set config
            /\ Items config <> []
            /\ Forall (fun conf => validateURLConfig conf = None)
                      (Items config)).
Proof.
  intros config. split; [|split].
  - intros before conf after msg G Hmax Hitems Hvalid Hbad.
    rewrite (validateConfig_items config G)
      by (rewrite Hitems; destruct before; discriminate).
    rewrite Hitems.
    rewrite (validateItems_first_failure before 0 conf after msg Hvalid Hbad).
    + reflexivity.
    + lia.
    + rewrite Hitems in Hmax. unfold len in *. rewrite length_app in Hmax.
      cbn [length] in Hmax. lia.
  - intros c0 c1 c2 rest G Hitems H0 H1 Hurl Hset.
    rewrite (validateConfig_items config G) by (rewrite Hitems; discriminate).
    rewrite Hitems. cbn [validateItems]. rewrite H0, H1.
    rewrite (validateURLConfig_empty_set c2 Hurl Hset). reflexivity.
  - apply validateConfig_nil_iff.
Qed.

Lemma validateConfig_first_violation_witness :
  validateConfig
    {| Items :=
         [ {| Name := "api"; URL := "http://a"; OKStatuses := [200];
              CheckInterval := {| Duration := Second |}; OKPeriods := 3;
              AlarmPeriods := 2; HTTPTimeout := {| Duration := Second |} |};
           {| Name := "web"; URL := "http://b"; OKStatuses := [200; 301];
              CheckInterval := {| Duration := Second |}; OKPeriods := 1;
              AlarmPeriods := 1; HTTPTimeout := {| Duration := Second |} |};
           {| Name := "db"; URL := "http://c"; OKStatuses := [];
              CheckInterval := {| Duration := Second |}; OKPeriods := 3;
              AlarmPeriods := 2; HTTPTimeout := {| Duration := Second |} |} ];
       SlackToken := "t"; SlackChannel := "c"; BotName := "b" |}
  = Some "invalid item 2: empty OKStatuses"%string.
Proof.
  eapply validateConfig_first_violation.
  - unfold globals_set. cbn. repeat split; discriminate.
  - reflexivity.
  - reflexivity.
  - reflexivity.
  - discriminate.
  - reflexivity.
Defined.

(** ** The watcher *)

Lemma slice_from_1 {A : Type} (s : list A) :
  1 <= len s -> slice_from s 1 = Ret (skipn 1 s).
Proof.
  intros H. unfold slice_from.
  replace (len s <? 1) with false by (symmetry; apply Z.ltb_ge; lia).
  reflexivity.
Qed.

Lemma len_slide {A : Type} (s : list A) (a : A) :
  1 <= len s -> len (skipn 1 s ++ [a]) = len s.
Proof.
  unfold len. rewrite length_app, length_skipn. cbn [length]. lia.
Qed.

Lemma iterate_app (config : urlConfig) (polls1 polls2 : list poll) :
  forall w,
    iterate config w (polls1 ++ polls2)
    = (w' <- iterate config w polls1 ;; iterate config w' polls2).
Proof.
  induction polls1 as [|p polls1 IH]; intros w; cbn [app iterate bind].
  - reflexivity.
  - destruct (iteration config w p) as [w'| |]; cbn [bind]; auto.
Qed.

Lemma watchURL_snoc (maxLen : Z) (config : urlConfig) (polls : list poll)
      (p : poll) :
  watchURL maxLen config (polls ++ [p])
  = (w <- watchURL maxLen config polls ;; iteration config w p).
Proof.
  unfold watchURL. destruct (start maxLen config) as [w0| |]; cbn [bind]; auto.
  rewrite iterate_app. destruct (iterate config w0 polls) as [w| |];
    cbn [bind iterate]; auto.
  destruct (iteration config w p); reflexivity.
Qed.

(** A watcher that got past its allocation was granted its buffer. *)
Lemma watchURL_returns_alloc (maxLen : Z) (config : urlConfig)
      (polls : list poll) (w : watcher) :
  watchURL maxLen config polls = Ret w -> capacity config <= maxLen.
Proof.
  unfold watchURL, start, make, capacity.
  destruct (max (OKPeriods config) (AlarmPeriods config) <? 0); cbn [orb bind];
    [discriminate|].
  destruct (maxLen <? max (OKPeriods config) (AlarmPeriods config)) eqn:E;
    cbn [bind]; [discriminate|].
  intros _. apply Z.ltb_ge in E. exact E.
Qed.

Section Watcher.
Variable maxLen : Z.
Variable config : urlConfig.
Hypothesis periods : valid_periods config.
Hypothesis alloc : capacity config <= maxLen.

Lemma capacity_bounds : 1 <= capacity config <= max_int.
Proof.
  destruct periods as (I1 & I2 & P1 & P2).
  unfold capacity, is_int in *. rewrite max_spec. lia.
Qed.

Lemma start_spec :
  start maxLen config
  = Ret {| lastStatus := checkStatusUnknown;
           history := repeat checkStatusUnknown (Z.to_nat (capacity config));
           events := [] |}.
Proof.
  pose proof capacity_bounds as Hc. unfold start, make. fold (capacity config).
  replace (capacity config <? 0) with false
    by (symmetry; apply Z.ltb_ge; lia).
  replace (maxLen <? capacity config) with false
    by (symmetry; apply Z.ltb_ge; exact alloc).
  reflexivity.
Qed.

(** One pass of the loop on a buffer of the allocated length. *)
Lemma iteration_spec (w : watcher) (p : poll) :
  len (history w) = capacity config -> well_formed p ->
  exists result newStatus,
    checkResponse (resp p) (err p) config = Ret result
    /\ len (skipn 1 (history w) ++ [currentStatus result]) = capacity config
    /\ getNewStatus (skipn 1 (history w) ++ [currentStatus result])
                    (OKPeriods config) (AlarmPeriods config) = Ret newStatus
    /\ iteration config w p
       = Ret (if negb (checkStatus_eqb newStatus checkStatusUnknown)
                 && negb (checkStatus_eqb newStatus (lastStatus w))
              then {| lastStatus := newStatus;
                      history := skipn 1 (history w) ++ [currentStatus result];
                      events := events w
                                ++ [StatusChangeEvent config p (lastStatus w)
                                                      newStatus] |}
              else {| lastStatus := lastStatus w;
                      history := skipn 1 (history w) ++ [currentStatus result];
                      events := events w |}).
Proof.
  intros Hlen Hwf. pose proof capacity_bounds as Hc.
  destruct (checkResponse_total (resp p) (err p) config Hwf) as [result Hres].
  exists result.
  set (h' := skipn 1 (history w) ++ [currentStatus result]).
  assert (Hlen' : len h' = capacity config)
    by (unfold h'; rewrite len_slide; lia).
  destruct periods as (I1 & I2 & P1 & P2).
  destruct (window_precondition h' (OKPeriods config) (AlarmPeriods config)
                                I1 I2 Hlen' P1 P2)
    as (Hm & Ho & Ha).
  exists (rule h' (OKPeriods config) (AlarmPeriods config)).
  pose proof (getNewStatus_rule h' (OKPeriods config) (AlarmPeriods config)
                                Hm Ho Ha) as Hrule.
  split; [exact Hres|]. split; [exact Hlen'|]. split; [exact Hrule|].
  unfold iteration. rewrite Hres. cbn [bind].
  rewrite slice_from_1 by lia. cbn [bind]. fold h'.
  rewrite Hrule. cbn [bind].
  unfold StatusChangeEvent.
  destruct (negb (checkStatus_eqb
                    (rule h' (OKPeriods config) (AlarmPeriods config))
                                  checkStatusUnknown)
            && negb (checkStatus_eqb
                       (rule h' (OKPeriods config) (AlarmPeriods config))
                                     (lastStatus w))); reflexivity.
Qed.

(** The loop never panics on answers of [client.Get], and keeps the
    length of the buffer. *)
Lemma watchURL_total (polls : list poll) :
  Forall well_formed polls ->
  exists w, watchURL maxLen config polls = Ret w
            /\ len (history w) = capacity config.
Proof.
  pose proof capacity_bounds as Hc.
  induction polls as [|p polls IH] using rev_ind; intros Hwf.
  - unfold watchURL. rewrite start_spec. cbn [bind iterate].
    eexists. split; [reflexivity|]. cbn [history]. unfold len.
    rewrite repeat_length. lia.
  - apply Forall_app in Hwf. destruct Hwf as [Hwf Hp].
    inversion Hp as [|? ? Hp' _]; subst.
    destruct (IH Hwf) as (w & Hrun & Hlen).
    destruct (iteration_spec w p Hlen Hp')
      as (result & newStatus & _ & Hlen' & _ & Hit).
    rewrite watchURL_snoc, Hrun. cbn [bind]. rewrite Hit.
    eexists. split; [reflexivity|].
    destruct (negb (checkStatus_eqb newStatus checkStatusUnknown)
              && negb (checkStatus_eqb newStatus (lastStatus w)));
      exact Hlen'.
Qed.
End Watcher.



Section WatcherEvents.
Variable maxLen : Z.
Variable config : urlConfig.
Hypothesis periods : valid_periods config.
Hypothesis alloc : capacity config <= maxLen.

(** What one pass does to the channel and to [lastStatus]. *)
Lemma iteration_event (w : watcher) (p : poll) :
  len (history w) = capacity config -> well_formed p ->
  exists newStatus w',
    iteration config w p = Ret w'
    /\ verdict config w' = Ret newStatus
    /\ len (history w') = capacity config
    /\ (newStatus <> checkStatusUnknown /\ newStatus <> lastStatus w ->
        events w'
        = events w ++ [StatusChangeEvent config p (lastStatus w) newStatus]
        /\ lastStatus w' = newStatus)
    /\ (~ (newStatus <> checkStatusUnknown /\ newStatus <> lastStatus w) ->
        events w' = events w /\ lastStatus w' = lastStatus w).
Proof.
  intros Hlen Hwf.
  destruct (iteration_spec config periods w p Hlen Hwf)
    as (result & newStatus & _ & Hlen' & Hv & Hit).
  exists newStatus. eexists. split; [exact Hit|].
  destruct (checkStatus_eqb newStatus checkStatusUnknown) eqn:E1;
    [|destruct (checkStatus_eqb newStatus (lastStatus w)) eqn:E2];
    cbn [negb andb]; unfold verdict; cbn [history events lastStatus];
    (split; [exact Hv|]); (split; [exact Hlen'|]).
  - apply checkStatus_eqb_eq in E1. split; [tauto | auto].
  - apply checkStatus_eqb_eq in E2. split; [tauto | auto].
  - apply checkStatus_eqb_neq in E1, E2. split; [auto | tauto].
Qed.


End WatcherEvents.



(** ** The buffer as a sliding window *)


Lemma iteration_history (config : urlConfig) (w : watcher) (p : poll) :
  valid_periods config ->
  len (history w) = capacity config -> well_formed p ->
  exists result w',
    checkResponse (resp p) (err p) config = Ret result
    /\ iteration config w p = Ret w'
    /\ history w' = skipn 1 (history w) ++ [currentStatus result]
    /\ len (history w') = capacity config.
Proof.
  intros periods Hlen Hwf.
  destruct (iteration_spec config periods w p Hlen Hwf)
    as (result & newStatus & Hres & Hlen' & _ & Hit).
  exists result. eexists. split; [exact Hres|]. split; [exact Hit|].
  destruct (negb (checkStatus_eqb newStatus checkStatusUnknown)
            && negb (checkStatus_eqb newStatus (lastStatus w)));
    cbn [history]; auto.
Qed.

Lemma lastn_slide {A : Type} (n : Z) (xs : list A) (c : A) :
  1 <= n <= len xs ->
  skipn 1 (lastn n xs) ++ [c] = lastn n (xs ++ [c]).
Proof.
  unfold lastn, len. intros Hn.
  rewrite skipn_skipn, length_app. cbn [length].
  replace (length xs + 1 - Z.to_nat n)%nat
    with (1 + (length xs - Z.to_nat n))%nat by lia.
  rewrite skipn_app.
  replace (1 + (length xs - Z.to_nat n) - length xs)%nat with 0%nat by lia.
  reflexivity.
Qed.

Lemma lastn_all {A : Type} (n : Z) (xs : list A) :
  len xs = n -> lastn n xs = xs.
Proof.
  unfold lastn, len. intros <-. rewrite Nat2Z.id, Nat.sub_diag. reflexivity.
Qed.


(** The buffer of a run: the last L entries of the initial fill followed by
    the outcome recorded at each poll. *)
Lemma watchURL_history (maxLen : Z) (config : urlConfig)
      (polls : list poll) :
  valid_periods config -> capacity config <= maxLen ->
  Forall well_formed polls ->
  exists w recorded,
    watchURL maxLen config polls = Ret w
    /\ Forall2 (fun p s =>
                  exists result,
                    checkResponse (resp p) (err p) config = Ret result
                    /\ s = currentStatus result) polls recorded
    /\ history w
       = lastn (capacity config)
               (repeat checkStatusUnknown (Z.to_nat (capacity config))
                ++ recorded).
Proof.
  intros periods alloc. pose proof (capacity_bounds config periods) as Hc.
  induction polls as [|p polls IH] using rev_ind; intros Hwf.
  - unfold watchURL. rewrite (start_spec maxLen config periods alloc).
    cbn [bind iterate]. eexists. exists []. split; [reflexivity|].
    split; [constructor|]. cbn [history]. rewrite app_nil_r.
    symmetry. apply lastn_all. unfold len. rewrite repeat_length. lia.
  - apply Forall_app in Hwf. destruct Hwf as [Hwf Hp].
    inversion Hp as [|? ? Hp' _]; subst.
    destruct (IH Hwf) as (w & recorded & Hrun & Hrec & Hhist).
    assert (Hlen : len (history w) = capacity config).
    { destruct (watchURL_total maxLen config periods alloc polls Hwf)
        as (w0 & Hrun0 & Hl).
      congruence. }
    destruct (iteration_history config w p periods Hlen Hp')
      as (result & w' & Hres & Hit & Hh' & _).
    exists w', (recorded ++ [currentStatus result]).
    split; [rewrite watchURL_snoc, Hrun; exact Hit|]. split.
    + apply Forall2_app; [exact Hrec|]. constructor; [eauto | constructor].
    + rewrite Hh', Hhist, app_assoc. apply lastn_slide.
      unfold len. rewrite length_app, repeat_length. lia.
Qed.





(** ** The scenarios of the specification, evaluated *)

(** A threshold above what the runtime allocates passes
    [validateURLConfig] and stops the watcher at the allocation. *)
Example oversized_periods_panic :
  let config := {| Name := "api"; URL := "http://a"; OKStatuses := [200];
                   CheckInterval := {| Duration := Second |};
                   OKPeriods := max_int; AlarmPeriods := 2;
                   HTTPTimeout := {| Duration := Second |} |} in
  validateURLConfig config = None /\ watchURL (2 ^ 45) config [] = Panic.
Proof. split; reflexivity. Qed.

(** Scenario B: N_ok = N_alarm = 2 and the window [Ok, Alarm]. *)
Example scenario_B :
  getNewStatus [checkStatusOk; checkStatusAlarm] 2 2 = Ret checkStatusUnknown.
Proof. reflexivity. Qed.

(** Scenario C: acceptable set {200}, N_ok = N_alarm = 2; three polls
    answered 503, then two answered 200. *)
Example scenario_C :
  let config := {| Name := "api"; URL := "http://a"; OKStatuses := [200];
                   CheckInterval := {| Duration := Second |}; OKPeriods := 2;
                   AlarmPeriods := 2;
                   HTTPTimeout := {| Duration := Second |} |} in
  let answer code t := {| resp := Some {| StatusCode := code |};
                          err := None; now := t |} in
  option_map (map (fun e => (time e, from e, to e)))
             (match watchURL (2 ^ 45) config [answer 503 1; answer 503 2; answer 503 3;
                                     answer 200 4; answer 200 5] with
              | Ret w => Some (events w)
              | _ => None
              end)
  = Some [(2, checkStatusUnknown, checkStatusAlarm);
          (5, checkStatusAlarm, checkStatusOk)].
Proof. reflexivity. Qed.

(** A configuration that passes [validateURLConfig] with both thresholds
    negative stops the watcher at the allocation of its buffer. *)
Example negative_periods_panic :
  let config := {| Name := "api"; URL := "http://a"; OKStatuses := [200];
                   CheckInterval := {| Duration := Second |}; OKPeriods := -1;
                   AlarmPeriods := -2;
                   HTTPTimeout := {| Duration := Second |} |} in
  validateURLConfig config = None /\ watchURL (2 ^ 45) config [] = Panic.
Proof. split; reflexivity. Qed.

(** * Further properties of the evaluator *)

Lemma lastn_app_short {A : Type} (n : Z) (older h : list A) :
  n <= len h -> lastn n (older ++ h) = lastn n h.
Proof.
  unfold lastn, len. intros Hn. rewrite length_app, skipn_app.
  destruct (Z_le_dec n 0) as [Hneg|Hpos].
  - replace (Z.to_nat n) with 0%nat by lia. rewrite !Nat.sub_0_r.
    rewrite (skipn_all2 older) by lia.
    replace (length older + length h - length older)%nat
      with (length h) by lia.
    reflexivity.
  - rewrite (skipn_all2 older) by lia. cbn [app]. f_equal. lia.
Qed.

(** The evaluator looks at the end of the buffer only: entries older than
    both thresholds do not change its result. *)
Theorem getNewStatus_ignores_older_entries :
  forall (older history : list checkStatus) (okPeriods alarmPeriods : Z),
    len (older ++ history) <= max_int ->
    1 <= okPeriods <= len history ->
    1 <= alarmPeriods <= len history ->
    getNewStatus (older ++ history) okPeriods alarmPeriods
    = getNewStatus history okPeriods alarmPeriods.
Proof.
  intros older h ok al Hmax Hok Hal.
  assert (Hlen : len (older ++ h) = len older + len h)
    by (unfold len; rewrite length_app; lia).
  assert (0 <= len older) by (unfold len; lia).
  rewrite (getNewStatus_rule (older ++ h) ok al) by lia.
  rewrite (getNewStatus_rule h ok al) by lia.
  unfold rule. rewrite !lastn_app_short by lia. reflexivity.
Qed.

Lemma getNewStatus_ignores_older_entries_witness :
  getNewStatus ([checkStatusAlarm; checkStatusUnknown]
                  ++ [checkStatusOk; checkStatusOk]) 2 1
  = getNewStatus [checkStatusOk; checkStatusOk] 2 1.
Proof.
  apply getNewStatus_ignores_older_entries.
  - unfold len, max_int. cbn. lia.
  - unfold len. cbn. lia.
  - unfold len. cbn. lia.
Defined.

(** A block that returns its state has read that state at the newest
    position. *)
Lemma confirms_newest (h : list checkStatus) (want : checkStatus)
      (periods : Z) :
  len h <= max_int ->
  confirms h want periods = Ret true ->
  nth_error h (length h - 1) = Some want.
Proof.
  intros Hmax. unfold confirms.
  destruct (Z_lt_dec 0 (len h)) as [Hpos|Hzero].
  - unfold int_sub at 1. rewrite wrap_id
      by (unfold is_int, min_int, max_int, len in *; lia).
    destruct (index_in_bounds h (len h - 1)) as (a & Ha & Hnth); [lia|].
    rewrite Ha. cbn [bind].
    replace (Z.to_nat (len h - 1)) with (length h - 1)%nat in Hnth
      by (unfold len; lia).
    destruct (checkStatus_eqb a want) eqn:E; [|discriminate].
    apply checkStatus_eqb_eq in E. subst a. intros _. exact Hnth.
  - assert (len h = 0) as E by (unfold len in *; lia).
    rewrite E. rewrite index_out_of_bounds; [discriminate|].
    left. vm_compute. reflexivity.
Qed.

(** Whatever the thresholds are, [getNewStatus] never confirms a state
    other than the one of the most recent entry. *)
Theorem getNewStatus_confirms_newest_only :
  forall (history : list checkStatus) (okPeriods alarmPeriods : Z)
         (s : checkStatus),
    len history <= max_int ->
    getNewStatus history okPeriods alarmPeriods = Ret s ->
    s <> checkStatusUnknown ->
    nth_error history (length history - 1) = Some s.
Proof.
  intros h ok al s Hmax. unfold getNewStatus.
  pose proof (confirms_newest h checkStatusOk ok Hmax) as Hok.
  pose proof (confirms_newest h checkStatusAlarm al Hmax) as Hal.
  destruct (confirms h checkStatusOk ok) as [[|]| |]; cbn [bind];
    try discriminate.
  - intros E _. injection E as <-. auto.
  - destruct (confirms h checkStatusAlarm al) as [[|]| |]; cbn [bind];
      try discriminate; intros E Hs; injection E as <-; [auto | congruence].
Qed.

Lemma getNewStatus_confirms_newest_only_witness :
  nth_error [checkStatusOk; checkStatusAlarm; checkStatusAlarm] (3 - 1)
  = Some checkStatusAlarm.
Proof.
  apply (getNewStatus_confirms_newest_only
           [checkStatusOk; checkStatusAlarm; checkStatusAlarm] (-7) 2).
  - unfold len, max_int. cbn. lia.
  - reflexivity.
  - discriminate.
Defined.

(** A threshold of 1 or less leaves the scan nothing to check. *)
Lemma confirms_low_threshold (h : list checkStatus) (want newest : checkStatus)
      (periods : Z) :
  len h <= max_int ->
  nth_error h (length h - 1) = Some newest ->
  len h - max_int <= periods <= 1 ->
  confirms h want periods = Ret (checkStatus_eqb newest want).
Proof.
  intros Hmax Hnew Hp.
  assert (Hpos : 1 <= len h).
  { unfold len. destruct h; [discriminate | cbn [length]; lia]. }
  unfold confirms, int_sub.
  rewrite !wrap_id by (unfold is_int, min_int, max_int in *; lia).
  destruct (index_in_bounds h (len h - 1)) as (a & Ha & Hnth); [lia|].
  replace (Z.to_nat (len h - 1)) with (length h - 1)%nat in Hnth
    by (unfold len; lia).
  rewrite Ha. cbn [bind]. assert (a = newest) by congruence. subst a.
  destruct (checkStatus_eqb newest want); [|reflexivity].
  destruct (length h) as [|fuel] eqn:E; [unfold len in Hpos; lia|].
  cbn [scanBack].
  replace (len h - 2 >=? len h - periods) with false; [reflexivity|].
  symmetry. rewrite Z.geb_leb. apply Z.leb_gt. lia.
Qed.

(** Thresholds of 1, 0 or below (as far as [size - threshold] does not
    overflow) all act as 1: the result is the newest entry itself. *)
Theorem getNewStatus_low_thresholds :
  forall (history : list checkStatus) (okPeriods alarmPeriods : Z)
         (newest : checkStatus),
    len history <= max_int ->
    nth_error history (length history - 1) = Some newest ->
    len history - max_int <= okPeriods <= 1 ->
    len history - max_int <= alarmPeriods <= 1 ->
    getNewStatus history okPeriods alarmPeriods = Ret newest.
Proof.
  intros h ok al newest Hmax Hnew Hok Hal. unfold getNewStatus.
  rewrite (confirms_low_threshold h checkStatusOk newest ok Hmax Hnew Hok).
  rewrite (confirms_low_threshold h checkStatusAlarm newest al Hmax Hnew Hal).
  destruct newest; reflexivity.
Qed.

Lemma getNewStatus_low_thresholds_witness :
  getNewStatus [checkStatusOk; checkStatusOk; checkStatusAlarm] 0 (-3)
  = Ret checkStatusAlarm.
Proof.
  apply getNewStatus_low_thresholds.
  - unfold len, max_int. cbn. lia.
  - reflexivity.
  - unfold len, max_int. cbn. lia.
  - unfold len, max_int. cbn. lia.
Defined.

(** A scan whose lower end lies below the buffer either meets an entry
    that differs or walks off the buffer at index -1. *)
Lemma scanBack_below_buffer (h : list checkStatus) (want : checkStatus)
      (lo : Z) (fuel : nat) :
  len h <= max_int -> lo <= -1 ->
  forall idx,
    -1 <= idx < len h ->
    idx + 2 <= Z.of_nat fuel ->
    (window_is want h 0 idx -> scanBack fuel h want lo idx = Panic)
    /\ (~ window_is want h 0 idx -> scanBack fuel h want lo idx = Ret false).
Proof.
  intros Hmax Hlo. induction fuel as [|fuel IH]; intros idx Hidx Hfuel; [lia|].
  cbn [scanBack].
  replace (idx >=? lo) with true
    by (symmetry; rewrite Z.geb_leb; apply Z.leb_le; lia).
  destruct (Z_lt_dec idx 0) as [Hneg|Hpos].
  - rewrite index_out_of_bounds by lia. cbn [bind]. split; [reflexivity|].
    intros Hnot. exfalso. apply Hnot. intros i Hi. lia.
  - destruct (index_in_bounds h idx) as (a & Ha & Hnth); [lia|].
    rewrite Ha. cbn [bind]. unfold int_sub.
    rewrite wrap_id by (unfold is_int, min_int, max_int in *; lia).
    destruct (IH (idx - 1)) as [IHyes IHno]; [lia | lia |].
    destruct (checkStatus_eqb a want) eqn:E; cbn [negb].
    + apply checkStatus_eqb_eq in E. subst a. split.
      * intros W. apply IHyes. intros i Hi. apply W. lia.
      * intros Hnot. apply IHno. intros W. apply Hnot. intros i Hi.
        destruct (Z.eq_dec i idx) as [->|Hne]; [exact Hnth | apply W; lia].
    + apply checkStatus_eqb_neq in E. split; [|reflexivity].
      intros W. specialize (W idx ltac:(lia)). congruence.
Qed.

Lemma all_are_window (want : checkStatus) (h : list checkStatus) :
  all_are want h = true <-> window_is want h 0 (len h - 1).
Proof.
  pose proof (all_are_lastn want h (len h)) as H.
  rewrite lastn_all, Z.sub_diag in H by reflexivity.
  apply H. unfold len. lia.
Qed.

(** A threshold beyond the length of the buffer cannot be met: its block
    panics when the whole buffer agrees and gives up otherwise. *)
Lemma confirms_oversized (h : list checkStatus) (want : checkStatus)
      (periods : Z) :
  len h < periods <= max_int ->
  confirms h want periods = if all_are want h then Panic else Ret false.
Proof.
  intros Hp. assert (Hmax : len h <= max_int) by lia.
  pose proof (all_are_window want h) as Hall.
  destruct (Z_lt_dec 0 (len h)) as [Hpos|Hzero].
  - unfold confirms, int_sub.
    rewrite !wrap_id by (unfold is_int, min_int, max_int in *; lia).
    destruct (index_in_bounds h (len h - 1)) as (a & Ha & Hnth); [lia|].
    rewrite Ha. cbn [bind].
    destruct (scanBack_below_buffer h want (len h - periods) (length h)
                Hmax ltac:(lia) (len h - 2)) as [Hyes Hno];
      [lia | unfold len; lia |].
    destruct (checkStatus_eqb a want) eqn:E.
    + apply checkStatus_eqb_eq in E. subst a.
      destruct (all_are want h).
      * apply Hyes. intros i Hi. apply Hall; [reflexivity | lia].
      * apply Hno. intros W.
        assert (false = true) as F; [|discriminate F].
        apply Hall. intros i Hi.
        destruct (Z.eq_dec i (len h - 1)) as [->|Hne];
          [exact Hnth | apply W; lia].
    + apply checkStatus_eqb_neq in E.
      destruct (all_are want h); [|reflexivity].
      exfalso. apply E.
      assert (nth_error h (Z.to_nat (len h - 1)) = Some want) as Hw
        by (apply Hall; [reflexivity | lia]).
      congruence.
  - assert (h = []) as ->
      by (destruct h; [reflexivity | unfold len in Hzero; cbn in Hzero; lia]).
    reflexivity.
Qed.

(** With N_ok above the length of the buffer the evaluator never returns
    Ok: on a buffer that is Ok throughout it panics. *)
Theorem getNewStatus_oversized_threshold :
  forall (history : list checkStatus) (okPeriods alarmPeriods : Z),
    len history < okPeriods <= max_int ->
    (all_are checkStatusOk history = true ->
     getNewStatus history okPeriods alarmPeriods = Panic)
    /\ getNewStatus history okPeriods alarmPeriods <> Ret checkStatusOk.
Proof.
  intros h ok al Hp. unfold getNewStatus.
  rewrite (confirms_oversized h checkStatusOk ok Hp).
  destruct (all_are checkStatusOk h); cbn [bind].
  - split; [reflexivity | discriminate].
  - split; [discriminate|].
    destruct (confirms h checkStatusAlarm al) as [[|]| |]; cbn [bind];
      discriminate.
Qed.

Lemma getNewStatus_oversized_threshold_witness :
  getNewStatus [checkStatusOk; checkStatusOk] 3 2 = Panic.
Proof.
  apply (getNewStatus_oversized_threshold [checkStatusOk; checkStatusOk] 3 2).
  - unfold len, max_int. cbn. lia.
  - reflexivity.
Defined.

(** * Further properties of the watcher *)








(** ** Hysteresis: what a streak of equal outcomes does, and what is needed
       for an event *)

Lemma lastn_length {A : Type} (n : Z) (xs : list A) :
  0 <= n <= len xs -> len (lastn n xs) = n.
Proof.
  unfold lastn, len. intros Hn. rewrite length_skipn. lia.
Qed.

Lemma lastn_lastn {A : Type} (n m : Z) (xs : list A) :
  0 <= n <= m -> m <= len xs -> lastn n (lastn m xs) = lastn n xs.
Proof.
  intros Hn Hm.
  rewrite <- (firstn_skipn (length xs - Z.to_nat m) xs) at 2.
  fold (lastn m xs). symmetry. apply lastn_app_short.
  rewrite lastn_length; lia.
Qed.

Lemma rule_Ok (h : list checkStatus) (ok al : Z) :
  rule h ok al = checkStatusOk ->
  all_are checkStatusOk (lastn ok h) = true.
Proof.
  unfold rule. destruct (all_are checkStatusOk (lastn ok h)); [reflexivity|].
  destruct (all_are checkStatusAlarm (lastn al h)); discriminate.
Qed.

Lemma rule_Alarm (h : list checkStatus) (ok al : Z) :
  rule h ok al = checkStatusAlarm ->
  all_are checkStatusAlarm (lastn al h) = true.
Proof.
  unfold rule. destruct (all_are checkStatusOk (lastn ok h)); [discriminate|].
  destruct (all_are checkStatusAlarm (lastn al h)); [reflexivity|discriminate].
Qed.







Lemma Forall2_skipn {A B : Type} (R : A -> B -> Prop) (k : nat) :
  forall l l', Forall2 R l l' -> Forall2 R (skipn k l) (skipn k l').
Proof.
  induction k as [|k IH]; intros l l' H; [exact H|].
  destruct H; cbn [skipn]; [constructor | apply IH; assumption].
Qed.

Lemma Forall2_lastn {A B : Type} (R : A -> B -> Prop) (n : Z)
      (l : list A) (l' : list B) :
  Forall2 R l l' -> Forall2 R (lastn n l) (lastn n l').
Proof.
  intros H. unfold lastn. rewrite <- (Forall2_length H).
  apply Forall2_skipn. exact H.
Qed.

Lemma streak_polls (config : urlConfig) (want : checkStatus)
      (polls : list poll) :
  forall recorded,
    Forall2 (fun p s =>
               exists r, checkResponse (resp p) (err p) config = Ret r
                         /\ s = currentStatus r) polls recorded ->
    all_are want recorded = true ->
    Forall (fun p => exists r,
                checkResponse (resp p) (err p) config = Ret r
                /\ currentStatus r = want) polls.
Proof.
  induction polls as [|p polls IH]; intros recorded H2 Hall;
    inversion H2 as [|? s ? ss (r & Hr & ->) Hrest]; subst; [constructor|].
  unfold all_are in *. cbn [forallb] in Hall.
  apply andb_true_iff in Hall. destruct Hall as [Hs Hss].
  apply checkStatus_eqb_eq in Hs.
  constructor; [eauto | exact (IH ss Hrest Hss)].
Qed.

(** A window of the buffer that is unanimous for Ok or for Alarm holds
    recorded outcomes only: that many polls have been made, and they all
    had that outcome. *)
Lemma unanimous_window_polls (config : urlConfig) (want : checkStatus)
      (n : Z) (polls : list poll) (recorded : list checkStatus) :
  Forall2 (fun p s =>
             exists r, checkResponse (resp p) (err p) config = Ret r
                       /\ s = currentStatus r) polls recorded ->
  1 <= n <= capacity config ->
  want <> checkStatusUnknown ->
  all_are want
          (lastn n (lastn (capacity config)
                          (repeat checkStatusUnknown
                                  (Z.to_nat (capacity config)) ++ recorded)))
  = true ->
  n <= len polls
  /\ Forall (fun p => exists r,
                 checkResponse (resp p) (err p) config = Ret r
                 /\ currentStatus r = want) (lastn n polls).
Proof.
  intros Hrec Hn Hwant Hall.
  set (init := repeat checkStatusUnknown (Z.to_nat (capacity config))) in *.
  assert (Hinit : length init = Z.to_nat (capacity config))
    by (unfold init; apply repeat_length).
  assert (Hlen : length recorded = length polls)
    by (symmetry; exact (Forall2_length Hrec)).
  rewrite lastn_lastn in Hall
    by (unfold len; rewrite ?length_app; lia).
  assert (Hge : n <= len recorded).
  { destruct (Z_le_dec n (len recorded)) as [H|H]; [exact H|]. exfalso.
    apply Hwant. symmetry.
    apply (proj1 (all_are_In want _) Hall). unfold lastn.
    apply In_skipn_nth.
    exists (length (init ++ recorded) - Z.to_nat n)%nat. split; [lia|].
    rewrite nth_error_app1
      by (rewrite length_app; unfold len in H; lia).
    unfold init. apply nth_error_repeat.
    rewrite length_app, repeat_length. unfold len in H. lia. }
  split; [unfold len in *; lia|].
  rewrite lastn_app_short in Hall by exact Hge.
  exact (streak_polls config want _ _ (Forall2_lastn _ n _ _ Hrec) Hall).
Qed.

(** What a pass that sends an event needs. *)
Lemma event_needs_streak (maxLen : Z) (config : urlConfig)
      (polls : list poll) (p : poll) (w w' : watcher) (e : statusChange) :
  valid_periods config ->
  Forall well_formed (polls ++ [p]) ->
  watchURL maxLen config polls = Ret w ->
  watchURL maxLen config (polls ++ [p]) = Ret w' ->
  events w' = events w ++ [e] ->
  exists result,
    to e = currentStatus result
    /\ (if result then OKPeriods config else AlarmPeriods config)
       <= len (polls ++ [p])
    /\ Forall (fun q => checkResponse (resp q) (err q) config = Ret result)
              (lastn (if result then OKPeriods config
                      else AlarmPeriods config) (polls ++ [p])).
Proof.
  intros periods Hwf Hrun Hrun' Hev.
  pose proof (watchURL_returns_alloc _ _ _ _ Hrun) as alloc.
  pose proof (capacity_bounds config periods) as Hc.
  pose proof Hwf as Hwf'. apply Forall_app in Hwf'.
  destruct Hwf' as [Hwf0 Hp]. inversion Hp as [|? ? Hp' _]; subst.
  destruct (watchURL_total maxLen config periods alloc polls Hwf0)
    as (w0 & Hrun0 & Hlen).
  assert (w0 = w) by congruence. subst w0.
  destruct (iteration_event config periods w p Hlen Hp')
    as (newStatus & w1 & Hit & Hv & Hlen' & Hyes & Hno).
  assert (w1 = w').
  { rewrite watchURL_snoc, Hrun in Hrun'. cbn [bind] in Hrun'. congruence. }
  subst w1.
  assert (Hsent : newStatus <> checkStatusUnknown
                  /\ newStatus <> lastStatus w).
  { destruct (checkStatus_eqb newStatus checkStatusUnknown) eqn:E1;
      [|destruct (checkStatus_eqb newStatus (lastStatus w)) eqn:E2].
    - apply checkStatus_eqb_eq in E1. destruct Hno as [He _]; [tauto|].
      rewrite He in Hev. apply (f_equal (@length _)) in Hev.
      rewrite length_app in Hev. cbn [length] in Hev. lia.
    - apply checkStatus_eqb_eq in E2. destruct Hno as [He _]; [tauto|].
      rewrite He in Hev. apply (f_equal (@length _)) in Hev.
      rewrite length_app in Hev. cbn [length] in Hev. lia.
    - apply checkStatus_eqb_neq in E1, E2. auto. }
  destruct (Hyes Hsent) as [He _]. rewrite He in Hev.
  apply app_inv_head in Hev. injection Hev as <-.
  unfold StatusChangeEvent. cbn [to].
  destruct (watchURL_history maxLen config _ periods alloc Hwf)
    as (w2 & recorded & Hrun2 & Hrec & Hhist).
  assert (w2 = w') by congruence. subst w2.
  destruct periods as (I1 & I2 & P1 & P2).
  destruct (window_precondition (history w') _ _ I1 I2 Hlen' P1 P2)
    as (Hm & Ho & Ha).
  unfold verdict in Hv. rewrite (getNewStatus_rule _ _ _ Hm Ho Ha) in Hv.
  injection Hv as Hv.
  destruct newStatus; [tauto | exists true | exists false];
    (split; [reflexivity|]).
  - apply rule_Ok in Hv. rewrite Hhist in Hv.
    destruct (unanimous_window_polls config checkStatusOk (OKPeriods config)
                _ _ Hrec ltac:(lia) ltac:(discriminate) Hv) as [Hge Hall].
    split; [exact Hge|]. eapply Forall_impl; [|exact Hall]. cbn beta.
    intros q (r & Hr & Hs). destruct r; [exact Hr | discriminate].
  - apply rule_Alarm in Hv. rewrite Hhist in Hv.
    destruct (unanimous_window_polls config checkStatusAlarm
                (AlarmPeriods config)
                _ _ Hrec ltac:(lia) ltac:(discriminate) Hv) as [Hge Hall].
    split; [exact Hge|]. eapply Forall_impl; [|exact Hall]. cbn beta.
    intros q (r & Hr & Hs). destruct r; [discriminate | exact Hr].
Qed.

(** No event without a streak: a pass sends an event into Ok only when the
    last N_ok polls, this one included, all succeeded, and into Alarm only
    when the last N_alarm polls all failed.  One deviating poll in between
    postpones the event. *)
Theorem event_only_after_streak :
  forall (maxLen : Z) (config : urlConfig) (polls : list poll) (p : poll)
         (w w' : watcher) (e : statusChange),
    valid_periods config ->
    Forall well_formed (polls ++ [p]) ->
    watchURL maxLen config polls = Ret w ->
    watchURL maxLen config (polls ++ [p]) = Ret w' ->
    events w' = events w ++ [e] ->
    (to e = checkStatusOk ->
     OKPeriods config <= len (polls ++ [p])
     /\ Forall (fun q => checkResponse (resp q) (err q) config = Ret true)
               (lastn (OKPeriods config) (polls ++ [p])))
    /\ (to e = checkStatusAlarm ->
        AlarmPeriods config <= len (polls ++ [p])
        /\ Forall (fun q => checkResponse (resp q) (err q) config = Ret false)
                  (lastn (AlarmPeriods config) (polls ++ [p])))
    /\ to e <> checkStatusUnknown.
Proof.
  intros maxLen config polls p w w' e periods Hwf Hrun Hrun' Hev.
  destruct (event_needs_streak maxLen config polls p w w' e periods Hwf
                               Hrun Hrun' Hev) as (result & Hto & Hge & Hall).
  rewrite Hto. destruct result; cbn [currentStatus].
  - split; [auto|]. split; discriminate.
  - split; [discriminate|]. split; [auto | discriminate].
Qed.

Lemma event_only_after_streak_witness :
  let config := {| Name := "api"; URL := "http://a"; OKStatuses := [200];
                   CheckInterval := {| Duration := Second |}; OKPeriods := 2;
                   AlarmPeriods := 2;
                   HTTPTimeout := {| Duration := Second |} |} in
  let answer code := {| resp := Some {| StatusCode := code |};
                        err := None; now := 4 |} in
  2 <= len ([answer 200; answer 503] ++ [answer 503])
  /\ Forall (fun q => checkResponse (resp q) (err q) config = Ret false)
            (lastn 2 ([answer 200; answer 503] ++ [answer 503])).
Proof.
  intros config answer.
  destruct (event_only_after_streak
              (2 ^ 45) config [answer 200; answer 503] (answer 503)
              {| lastStatus := checkStatusUnknown;
                 history := [checkStatusOk; checkStatusAlarm];
                 events := [] |}
              {| lastStatus := checkStatusAlarm;
                 history := [checkStatusAlarm; checkStatusAlarm];
                 events := [StatusChangeEvent config (answer 503)
                              checkStatusUnknown checkStatusAlarm] |}
              (StatusChangeEvent config (answer 503)
                                 checkStatusUnknown checkStatusAlarm))
    as (_ & Halarm & _).
  - unfold valid_periods, is_int, min_int, max_int. cbn. lia.
  - repeat constructor; discriminate.
  - reflexivity.
  - reflexivity.
  - reflexivity.
  - apply Halarm. reflexivity.
Defined.



(** * Further properties of the validator *)

Ltac guard_passes H :=
  match goal with
  | |- context [if ?b then _ else _] =>
      destruct b;
      [ exfalso;
        match goal with N : _ <> _ |- _ => apply N, H; reflexivity end
      | ]
  end.

(** [validateURLConfig] names the first zero field in the order url,
    OKStatuses, CheckInterval, HTTPTimeout, AlarmPeriods, OKPeriods. *)
Theorem validateURLConfig_reports_first_zero_field :
  forall config : urlConfig,
    (URL config = EmptyString ->
     validateURLConfig config = Some "empty URL"%string)
    /\ (URL config <> EmptyString ->
        (OKStatuses config = [] ->
         validateURLConfig config = Some "empty OKStatuses"%string)
        /\ (OKStatuses config <> [] ->
            (Duration (CheckInterval config) = 0 ->
             validateURLConfig config = Some "CheckInterval == 0s"%string)
            /\ (Duration (CheckInterval config) <> 0 ->
                (Duration (HTTPTimeout config) = 0 ->
                 validateURLConfig config = Some "HTTPTimeout == 0s"%string)
                /\ (Duration (HTTPTimeout config) <> 0 ->
                    (AlarmPeriods config = 0 ->
                     validateURLConfig config
                     = Some "AlarmPeriods == 0"%string)
                    /\ (AlarmPeriods config <> 0 ->
                        OKPeriods config = 0 ->
                        validateURLConfig config
                        = Some "OKPeriods == 0"%string))))).
Proof.
  intros config.
  pose proof (RuneCountInString_zero (URL config)) as H1.
  pose proof (len_zero (OKStatuses config)) as H2.
  pose proof (Seconds_zero (CheckInterval config)) as H3.
  pose proof (Seconds_zero (HTTPTimeout config)) as H4.
  pose proof (Z.eqb_eq (AlarmPeriods config) 0) as H5.
  pose proof (Z.eqb_eq (OKPeriods config) 0) as H6.
  unfold validateURLConfig, errors_New. split.
  - intros E. apply H1 in E. rewrite E. reflexivity.
  - intros N1. guard_passes H1. split.
    + intros E. apply H2 in E. rewrite E. reflexivity.
    + intros N2. guard_passes H2. split.
      * intros E. apply H3 in E. rewrite E. reflexivity.
      * intros N3. guard_passes H3. split.
        -- intros E. apply H4 in E. rewrite E. reflexivity.
        -- intros N4. guard_passes H4. split.
           ++ intros E. apply H5 in E. rewrite E. reflexivity.
           ++ intros N5 E. guard_passes H5.
              apply H6 in E. rewrite E. reflexivity.
Qed.

Lemma validateURLConfig_reports_first_zero_field_witness :
  validateURLConfig
    {| Name := "api"; URL := "http://a"; OKStatuses := [200];
       CheckInterval := {| Duration := Second |}; OKPeriods := 0;
       AlarmPeriods := 0; HTTPTimeout := {| Duration := Second |} |}
  = Some "AlarmPeriods == 0"%string.
Proof.
  destruct (validateURLConfig_reports_first_zero_field
    {| Name := "api"; URL := "http://a"; OKStatuses := [200];
       CheckInterval := {| Duration := Second |}; OKPeriods := 0;
       AlarmPeriods := 0; HTTPTimeout := {| Duration := Second |} |})
    as [_ H].
  destruct H as [_ H]; [discriminate|].
  destruct H as [_ H]; [discriminate|].
  destruct H as [_ H]; [discriminate|].
  destruct H as [H _]; [discriminate|].
  apply H. reflexivity.
Defined.

(** [validateConfig] tests the global fields before any target, in the
    order token, channel, bot name, and then asks for at least one
    target. *)
Theorem validateConfig_reports_globals_first :
  forall config : aliveConfig,
    (SlackToken config = EmptyString ->
     validateConfig config = Some "empty SlackToken"%string)
    /\ (SlackToken config <> EmptyString ->
        (SlackChannel config = EmptyString ->
         validateConfig config = Some "empty SlackChannel"%string)
        /\ (SlackChannel config <> EmptyString ->
            (BotName config = EmptyString ->
             validateConfig config = Some "empty BotName"%string)
            /\ (BotName config <> EmptyString ->
                Items config = [] ->
                validateConfig config = Some "no items"%string))).
Proof.
  intros config.
  pose proof (RuneCountInString_zero (SlackToken config)) as H1.
  pose proof (RuneCountInString_zero (SlackChannel config)) as H2.
  pose proof (RuneCountInString_zero (BotName config)) as H3.
  unfold validateConfig, errors_New. split.
  - intros E. apply H1 in E. rewrite E. reflexivity.
  - intros N1. guard_passes H1. split.
    + intros E. apply H2 in E. rewrite E. reflexivity.
    + intros N2. guard_passes H2. split.
      * intros E. apply H3 in E. rewrite E. reflexivity.
      * intros N3 E. guard_passes H3. rewrite E. reflexivity.
Qed.

Lemma validateConfig_reports_globals_first_witness :
  validateConfig {| Items := []; SlackToken := "t"; SlackChannel := "";
                    BotName := "" |}
  = Some "empty SlackChannel"%string.
Proof.
  destruct (validateConfig_reports_globals_first
              {| Items := []; SlackToken := "t"; SlackChannel := "";
                 BotName := "" |}) as [_ H].
  destruct H as [H _]; [discriminate|].
  apply H. reflexivity.
Defined.

Lemma validateItems_error_inv (items : list urlConfig) :
  forall idx e,
    0 <= idx -> idx + len items <= max_int ->
    validateItems idx items = Some e ->
    exists before conf after msg,
      items = before ++ conf :: after
      /\ Forall (fun c => validateURLConfig c = None) before
      /\ validateURLConfig conf = Some msg
      /\ e = ("invalid item " ++ format_d (idx + len before) ++ ": "
              ++ msg)%string.
Proof.
  induction items as [|c items IH]; intros idx e H0 Hmax;
    cbn [validateItems]; [discriminate|].
  unfold len in *. cbn [length] in Hmax.
  destruct (validateURLConfig c) as [msg|] eqn:E.
  - intros H. injection H as <-. exists [], c, items, msg.
    cbn [app length]. rewrite Z.add_0_r. auto.
  - unfold int_add. rewrite wrap_id
      by (unfold is_int, min_int, max_int in *; lia).
    intros H. destruct (IH (idx + 1) e ltac:(lia) ltac:(lia) H)
      as (before & conf & after & msg & -> & Hvalid & Hbad & ->).
    exists (c :: before), conf, after, msg. cbn [app length].
    repeat split; auto.
    replace (idx + Z.of_nat (S (length before)))
      with (idx + 1 + Z.of_nat (length before)) by lia.
    reflexivity.
Qed.

(** An error about an item always points at a real target: the first one
    that fails [validateURLConfig], with the message of that function. *)
Theorem validateConfig_item_error_is_first_failure :
  forall (config : aliveConfig) (e : string),
    globals_set config ->
    Items config <> [] ->
    len (Items config) <= max_int ->
    validateConfig config = Some e ->
    exists before conf after msg,
      Items config = before ++ conf :: after
      /\ Forall (fun c => validateURLConfig c = None) before
      /\ validateURLConfig conf = Some msg
      /\ e = ("invalid item " ++ format_d (len before) ++ ": " ++ msg)%string.
Proof.
  intros config e G N Hmax H.
  rewrite (validateConfig_items config G N) in H.
  destruct (validateItems_error_inv (Items config) 0 e) as
    (before & conf & after & msg & E & Hvalid & Hbad & ->); [lia | lia | exact H |].
  exists before, conf, after, msg. auto.
Qed.

Lemma validateConfig_item_error_is_first_failure_witness :
  let good := {| Name := "api"; URL := "http://a"; OKStatuses := [200];
                 CheckInterval := {| Duration := Second |}; OKPeriods := 3;
                 AlarmPeriods := 2;
                 HTTPTimeout := {| Duration := Second |} |} in
  let bad := {| Name := "db"; URL := "http://b"; OKStatuses := [200];
                CheckInterval := {| Duration := 0 |}; OKPeriods := 3;
                AlarmPeriods := 2;
                HTTPTimeout := {| Duration := Second |} |} in
  exists before conf after msg,
    [good; bad; bad] = before ++ conf :: after
    /\ Forall (fun c => validateURLConfig c = None) before
    /\ validateURLConfig conf = Some msg
    /\ "invalid item 1: CheckInterval == 0s"%string
       = ("invalid item " ++ format_d (len before) ++ ": " ++ msg)%string.
Proof.
  intros good bad.
  apply (validateConfig_item_error_is_first_failure
           {| Items := [good; bad; bad]; SlackToken := "t";
              SlackChannel := "c"; BotName := "b" |}).
  - unfold globals_set. cbn. repeat split; discriminate.
  - discriminate.
  - unfold len, max_int. cbn. lia.
  - reflexivity.
Defined.

(** * The notifier *)

(** The message shows the target and the state entered, and nothing of the
    state left or of the time: changes that agree on name, url and new state
    give the same message, and changes into different states never do (the
    colour alone tells them apart). *)
Theorem formatSlackMessage_shows_new_state :
  forall (botName : string) (c1 c2 : statusChange),
    (name c1 = name c2 -> url c1 = url c2 -> to c1 = to c2 ->
     formatSlackMessage botName c1 = formatSlackMessage botName c2)
    /\ (to c1 <> to c2 ->
        formatSlackMessage botName c1 <> formatSlackMessage botName c2).
Proof.
  intros botName c1 c2. unfold formatSlackMessage. split.
  - intros -> -> ->. reflexivity.
  - intros Hne E. apply Hne. injection E as Hcolor _.
    destruct (to c1), (to c2); try reflexivity; discriminate.
Qed.

Lemma formatSlackMessage_shows_new_state_witness :
  formatSlackMessage "bot"
    {| name := "api"; url := "http://a"; time := 1;
       from := checkStatusUnknown; to := checkStatusAlarm |}
  = formatSlackMessage "bot"
      {| name := "api"; url := "http://a"; time := 9;
         from := checkStatusOk; to := checkStatusAlarm |}.
Proof.
  apply formatSlackMessage_shows_new_state; reflexivity.
Defined.

Lemma slackNotifier_all_accepted (token channel botName : string)
      (incoming : list delivery) :
  Forall (fun d => reply d = None) incoming ->
  slackNotifier token channel botName incoming
  = (map (fun d => {| post_channel := channel; post_text := "";
                      post_params := formatSlackMessage botName (change d) |})
         incoming,
     Ret tt).
Proof.
  induction incoming as [|d incoming IH]; intros Hall; cbn [slackNotifier map];
    [reflexivity|].
  inversion Hall as [|? ? Hd Hrest]; subst. rewrite Hd, (IH Hrest).
  reflexivity.
Qed.

(** The notifier posts one message per event, in the order received, to the
    configured channel; the first call that returns an error is the last
    one made, and the notifier panics there. *)
Theorem slackNotifier_posts_in_order_until_error :
  forall (token channel botName : string) (incoming : list delivery),
    let call := fun d =>
      {| post_channel := channel; post_text := "";
         post_params := formatSlackMessage botName (change d) |} in
    (Forall (fun d => reply d = None) incoming ->
     slackNotifier token channel botName incoming
     = (map call incoming, Ret tt))
    /\ (forall before d after,
           incoming = before ++ d :: after ->
           Forall (fun d => reply d = None) before ->
           reply d <> None ->
           slackNotifier token channel botName incoming
           = (map call (before ++ [d]), Panic)).
Proof.
  intros token channel botName incoming call. split.
  - apply slackNotifier_all_accepted.
  - intros before d after -> Hbefore Hd.
    induction before as [|b before IH]; cbn [app slackNotifier map].
    + destruct (reply d); [reflexivity | congruence].
    + inversion Hbefore as [|? ? Hb Hrest]; subst. rewrite Hb, (IH Hrest).
      reflexivity.
Qed.

Lemma slackNotifier_posts_in_order_until_error_witness :
  let ev s := {| name := "api"; url := "http://a"; time := 1;
                 from := checkStatusUnknown; to := s |} in
  snd (slackNotifier "token" "#ops" "bot"
         [ {| change := ev checkStatusAlarm; reply := None |};
           {| change := ev checkStatusOk;
              reply := Some "channel_not_found"%string |};
           {| change := ev checkStatusAlarm; reply := None |} ])
  = Panic.
Proof.
  intros ev.
  destruct (slackNotifier_posts_in_order_until_error "token" "#ops" "bot"
         [ {| change := ev checkStatusAlarm; reply := None |};
           {| change := ev checkStatusOk;
              reply := Some "channel_not_found"%string |};
           {| change := ev checkStatusAlarm; reply := None |} ]) as [_ H].
  rewrite (H [ {| change := ev checkStatusAlarm; reply := None |} ]
             {| change := ev checkStatusOk;
                reply := Some "channel_not_found"%string |}
             [ {| change := ev checkStatusAlarm; reply := None |} ]).
  - reflexivity.
  - reflexivity.
  - repeat constructor.
  - discriminate.
Defined.





(** * Start-up *)

(** [main] starts tasks only for a configuration that was read without
    error and passes [validateConfig]: then it starts the notifier with the
    three global fields and one watcher per target, in the order of the
    file, and every started target passed [validateURLConfig].  The path
    read is the environment variable, or itsalive.toml when that is empty.
    In every other case [main] panics before any task is started. *)
Theorem main_starts_tasks_iff_config_valid :
  forall (ITSALIVE_CONFIG : string)
         (DecodeFile : string -> aliveConfig * error),
    let configPath :=
      if string_dec ITSALIVE_CONFIG EmptyString then "itsalive.toml"%string
      else ITSALIVE_CONFIG in
    let config := fst (DecodeFile configPath) in
    (snd (DecodeFile configPath) = None /\ validateConfig config = None ->
     main ITSALIVE_CONFIG DecodeFile
     = Ret {| notifier := (SlackToken config, SlackChannel config,
                           BotName config);
              watchers := Items config |}
     /\ Items config <> []
     /\ Forall (fun c => validateURLConfig c = None) (Items config))
    /\ (~ (snd (DecodeFile configPath) = None
           /\ validateConfig config = None) ->
        main ITSALIVE_CONFIG DecodeFile = Panic).
Proof.
  intros env DecodeFile configPath config.
  assert (Hpath : (if RuneCountInString env =? 0 then "itsalive.toml"%string
                   else env) = configPath).
  { unfold configPath. pose proof (RuneCountInString_zero env) as Hz.
    destruct (RuneCountInString env =? 0);
      destruct (string_dec env EmptyString) as [E|N]; try reflexivity.
    - exfalso. apply N, Hz. reflexivity.
    - apply Hz in E. discriminate. }
  unfold main. rewrite Hpath. subst config.
  destruct (DecodeFile configPath) as [config err]. cbn [fst snd].
  split.
  - intros [-> Hvalid]. rewrite Hvalid, map_id.
    apply validateConfig_nil_iff in Hvalid.
    destruct Hvalid as (_ & Hne & Hall). auto.
  - intros Hnot. destruct err as [msg|]; [reflexivity|].
    destruct (validateConfig config); [reflexivity|].
    exfalso. apply Hnot. auto.
Qed.

Lemma main_starts_tasks_iff_config_valid_witness :
  main "" (fun path => ({| Items := []; SlackToken := "t";
                           SlackChannel := "c"; BotName := "b" |},
                        if string_dec path "itsalive.toml" then None
                        else Some "no such file"%string))
  = Panic.
Proof.
  apply (main_starts_tasks_iff_config_valid
           "" (fun path => ({| Items := []; SlackToken := "t";
                               SlackChannel := "c"; BotName := "b" |},
                            if string_dec path "itsalive.toml" then None
                            else Some "no such file"%string))).
  cbn. intros [_ H]. discriminate.
Defined.

(** * The buffer forgets, and what validation buys *)





(** A watcher whose thresholds are both below 1 does not get through its
    first pass: with a negative maximum the allocation of the buffer
    panics, with maximum 0 the slice [history[1:]] of the empty buffer
    does. *)
Theorem watchURL_without_capacity_panics :
  forall (maxLen : Z) (config : urlConfig) (p : poll) (polls : list poll),
    max (OKPeriods config) (AlarmPeriods config) <= 0 ->
    well_formed p ->
    watchURL maxLen config (p :: polls) = Panic.
Proof.
  intros maxLen config p polls Hcap Hwf. unfold watchURL, start, make.
  destruct (max (OKPeriods config) (AlarmPeriods config) <? 0) eqn:E;
    [reflexivity|].
  apply Z.ltb_ge in E.
  replace (max (OKPeriods config) (AlarmPeriods config)) with 0 by lia.
  destruct (maxLen <? 0); [reflexivity|].
  cbn [orb Z.to_nat repeat bind iterate]. unfold iteration.
  destruct (checkResponse_total (resp p) (err p) config Hwf) as [r ->].
  reflexivity.
Qed.

Lemma watchURL_without_capacity_panics_witness :
  watchURL (2 ^ 45) {| Name := "api"; URL := "http://a"; OKStatuses := [200];
              CheckInterval := {| Duration := Second |}; OKPeriods := -1;
              AlarmPeriods := 0; HTTPTimeout := {| Duration := Second |} |}
           [ {| resp := None; err := Some "timeout"%string; now := 0 |} ]
  = Panic.
Proof.
  apply watchURL_without_capacity_panics.
  - vm_compute. discriminate.
  - discriminate.
Defined.


